(** * libpaper: the paper catalogue of [libpaper/paper.c]

    A shallow embedding of [paper.c] and of the library functions it calls
    (the C library's ctype, string, [getline] and [strtod] functions, and
    gnulib's [hash] module), followed by the properties of the catalogue
    and of the default-paper resolvers. *)

From Stdlib Require Import ZArith List Bool Ascii String Lia Permutation.
From Stdlib Require Import Floats.SpecFloat.
Import ListNotations.

Local Open Scope string_scope.
Local Open Scope Z_scope.

(** ** C library: characters and strings *)

Module CLib.

(** The value of a [char] read as [unsigned char]. *)
Definition uchar (c : ascii) : Z := Z.of_N (N_of_ascii c).

(** [isspace] in the C locale: space, \t, \n, \v, \f, \r. *)
Definition isspace (c : ascii) : bool :=
  (uchar c =? 32) || ((9 <=? uchar c) && (uchar c <=? 13)).

Definition isdigit (c : ascii) : bool :=
  (48 <=? uchar c) && (uchar c <=? 57).

(** [tolower] in the C locale, on the [unsigned char] value. *)
Definition tolower (c : ascii) : Z :=
  if (65 <=? uchar c) && (uchar c <=? 90) then uchar c + 32 else uchar c.

(** A C string is the bytes before the first NUL: [cstr] is what a
    [char *] pointing at the buffer [s] denotes. *)
Fixpoint cstr (s : string) : string :=
  match s with
  | EmptyString => EmptyString
  | String c r => if (uchar c =? 0) then EmptyString else String c (cstr r)
  end.

(** [strcasecmp]: the difference of the first two lowered bytes that
    differ, 0 when there are none. *)
Fixpoint strcasecmp (s1 s2 : string) : Z :=
  match s1, s2 with
  | EmptyString, EmptyString => 0
  | EmptyString, String c2 _ => 0 - tolower c2
  | String c1 _, EmptyString => tolower c1
  | String c1 r1, String c2 r2 =>
      if tolower c1 =? tolower c2 then strcasecmp r1 r2
      else tolower c1 - tolower c2
  end.

(** A stream opened for reading, kept as the lines that the successive
    calls of [getline] will return: each line ends with its newline,
    except possibly the last one. *)
Definition FILE := list string.

Definition newline : ascii := "010"%char.

Fixpoint getlines (s : string) : FILE :=
  match s with
  | EmptyString => []
  | String c r =>
      if Ascii.eqb c newline then String c EmptyString :: getlines r
      else match getlines r with
           | [] => [String c EmptyString]
           | l :: ls => String c l :: ls
           end
  end.

(** [getline]: the next line and the advanced stream, [None] for -1. *)
Definition getline (fp : FILE) : option (string * FILE) :=
  match fp with
  | [] => None
  | l :: fp' => Some (l, fp')
  end.

End CLib.

(** ** IEEE-754 numbers: C's [double] and [float] *)

Module Flt.

Definition double := spec_float.
Definition float := spec_float.

(** Round a finite number to a format; other numbers are unchanged. *)
Definition round_to (prec emax : Z) (x : spec_float) : spec_float :=
  match x with
  | S754_finite s m e => binary_round prec emax s m e
  | _ => x
  end.

(** The conversions [(float) x] and [(double) x]. *)
Definition to_float : double -> float := round_to 24 128.
Definition to_double : float -> double := round_to 53 1024.

Definition dmul : double -> double -> double := SFmul 53 1024.
Definition ddiv : double -> double -> double := SFdiv 53 1024.
Definition dadd : double -> double -> double := SFadd 53 1024.
Definition fmul : float -> float -> float := SFmul 24 128.
Definition fdiv : float -> float -> float := SFdiv 24 128.

(** An integer converted to a format. *)
Definition of_Z (prec emax : Z) (n : Z) : spec_float :=
  binary_normalize prec emax n 0 false.

(** The number [(-1)^s * m * 10^e] rounded to nearest-even in a format:
    what a decimal constant or [strtod] yields for these digits. *)
Definition of_decimal (prec emax : Z) (s : bool) (m : Z) (e : Z) : spec_float :=
  match m with
  | Zpos p =>
      match e with
      | Zneg k =>
          SFdiv prec emax (S754_finite s p 0)
                (S754_finite false (Pos.pow 10 k) 0)
      | _ => binary_round prec emax s (p * Z.to_pos (10 ^ e))%positive 0
      end
  | _ => S754_zero s
  end.

(** [(-1)^s * m * 2^e] rounded to nearest-even: a hexadecimal constant. *)
Definition of_binary (prec emax : Z) (s : bool) (m : Z) (e : Z) : spec_float :=
  match m with
  | Zpos p => binary_round prec emax s p e
  | _ => S754_zero s
  end.

(** Conversion to an integer type truncates toward zero.  The result is
    unspecified in C for NaN and the infinities; 0 is used here. *)
Definition trunc (x : spec_float) : Z :=
  match x with
  | S754_finite s m e =>
      let a := match e with
               | Zneg k => Z.pos m / Z.pos (Pos.pow 2 k)
               | _ => Z.pos m * 2 ^ e
               end in
      if s then - a else a
  | _ => 0
  end.

Definition is_zero (x : spec_float) : bool :=
  match x with S754_zero _ => true | _ => false end.

Definition is_nan (x : spec_float) : bool :=
  match x with S754_nan => true | _ => false end.

Definition zero : spec_float := S754_zero false.

(** The comparison [x == y] of C. *)
Definition eqb (x y : spec_float) : bool := SFeqb x y.

End Flt.

(** ** C library: [strtod] *)

Module Strtod.
Import CLib Flt.

(** Skip leading white space, as [strtod] does first. *)
Fixpoint skip_space (s : string) : string :=
  match s with
  | String c r => if isspace c then skip_space r else s
  | EmptyString => s
  end.

Definition hexval (c : ascii) : option Z :=
  let u := uchar c in
  if (48 <=? u) && (u <=? 57) then Some (u - 48)
  else if (97 <=? u) && (u <=? 102) then Some (u - 87)
  else if (65 <=? u) && (u <=? 70) then Some (u - 55)
  else None.

Definition digval (base : Z) (c : ascii) : option Z :=
  if base =? 16 then hexval c
  else if isdigit c then Some (uchar c - 48) else None.

(** Read a run of digits in [base] after the value [acc]: the new value,
    the number of digits read and the rest of the string. *)
Fixpoint digits (base : Z) (s : string) (acc : Z) (n : Z) : Z * Z * string :=
  match s with
  | String c r =>
      match digval base c with
      | Some d => digits base r (acc * base + d) (n + 1)
      | None => (acc, n, s)
      end
  | EmptyString => (acc, n, s)
  end.

(** [prefix_ci p s]: [s] without its prefix [p], compared ignoring case
    ([p] is given in lower case). *)
Fixpoint prefix_ci (p s : string) : option string :=
  match p, s with
  | EmptyString, _ => Some s
  | String a p', String c s' =>
      if tolower c =? uchar a then prefix_ci p' s' else None
  | String _ _, EmptyString => None
  end.

(** The optional exponent part: the letter [ec] (in lower case), an
    optional sign and at least one decimal digit; 0 when absent. *)
Definition exponent (ec : ascii) (s : string) : Z :=
  match s with
  | String c r =>
      if tolower c =? uchar ec then
        let '(neg, r') :=
          match r with
          | String "-"%char r' => (true, r')
          | String "+"%char r' => (false, r')
          | _ => (false, r)
          end in
        let '(x, n, _) := digits 10 r' 0 0 in
        if n =? 0 then 0 else if neg then - x else x
      else 0
  | EmptyString => 0
  end.

(** Mantissa in [base]: digits, an optional point, digits.  Returns the
    digits read as one integer, how many there are, and how many follow
    the point. *)
Definition mantissa (base : Z) (s : string) : Z * Z * Z * string :=
  let '(m1, n1, r1) := digits base s 0 0 in
  match r1 with
  | String "."%char r2 =>
      let '(m2, n2, r3) := digits base r2 m1 0 in
      if n1 + n2 =? 0 then (0, 0, 0, s) else (m2, n1 + n2, n2, r3)
  | _ => (m1, n1, 0, r1)
  end.

(** [m * b^e] as a fraction. *)
Definition scaled (b m e : Z) : Z * Z :=
  if 0 <=? e then (m * b ^ e, 1) else (m, b ^ (- e)).

(** Is [q < 2^e], for a fraction [q] with positive terms. *)
Definition below_pow2 (q : Z * Z) (e : Z) : bool :=
  if 0 <=? e then fst q <? snd q * 2 ^ e else fst q * 2 ^ (- e) <? snd q.

(** The exponent of the leading bit of [q > 0]. *)
Definition leading_exponent (q : Z * Z) : Z :=
  let e0 := Z.log2 (fst q) - Z.log2 (snd q) in
  if below_pow2 q e0 then e0 - 1 else e0.

(** The result for a value [q > 0] below the least normal number, as the
    GNU C library computes it (its [round_and_return]).  The value is
    first cut to 53 bits: [M] is the mantissa, [half] the next bit and
    [more] tells whether a later bit is set.  The mantissa is then
    shifted right to the exponent of the subnormal numbers and rounded on
    the bits shifted out of it and on [more]; the bit [half] is not looked
    at again.  [errno] is set to ERANGE when bits are so lost, unless the
    value rounds to the least normal number already at 53 bits; a value
    below half the least subnormal number gives 0 and ERANGE. *)
Definition round_tiny (neg : bool) (q : Z * Z) : double * bool :=
  let e := leading_exponent q in
  let shift := -1022 - e in
  if 53 <? shift then (S754_zero neg, true)
  else
    let '(M, rem) := Z.div_eucl (fst q * 2 ^ (52 - e)) (snd q) in
    let half := snd q <=? 2 * rem in
    let more := negb (rem =? 0) && negb (2 * rem =? snd q) in
    let is_tiny :=
      negb ((shift =? 1) && half && (more || Z.odd M) && (M + 1 =? 2 ^ 53)) in
    let half' := Z.testbit M (shift - 1) in
    let more' := more || negb (M mod 2 ^ (shift - 1) =? 0) in
    let R := Z.shiftr M shift in
    let R := if half' && (more' || Z.odd R) then R + 1 else R in
    (of_binary 53 1024 neg R (-1074), is_tiny && (half' || more')).

(** The result of a conversion and whether [errno] is set to ERANGE: [x]
    is the value [q] rounded to nearest; ERANGE is for an overflow, and
    for what [round_tiny] says of the values below the least normal
    number. *)
Definition converted (neg : bool) (x : double) (q : Z * Z) : double * bool :=
  if fst q =? 0 then (x, false)
  else if below_pow2 q (-1022) then round_tiny neg q
  else (x, match x with S754_infinity _ => true | _ => false end).

(** [strtod s NULL]: the value, and whether [errno] is set (to ERANGE).
    When no conversion can be performed the value is 0 and [errno] is
    left as it is. *)
Definition strtod (s : string) : double * bool :=
  let s0 := skip_space s in
  let '(neg, s1) :=
    match s0 with
    | String "-"%char r => (true, r)
    | String "+"%char r => (false, r)
    | _ => (false, s0)
    end in
  match prefix_ci "inf" s1 with
  | Some _ => (S754_infinity neg, false)
  | None =>
  match prefix_ci "nan" s1 with
  | Some _ => (S754_nan, false)
  | None =>
  let hex :=
    match prefix_ci "0x" s1 with
    | Some r =>
        let '(m, n, k, r') := mantissa 16 r in
        if n =? 0 then None
        else Some (m, exponent "p" r' - 4 * k)
    | None => None
    end in
  match hex with
  | Some (m, e) =>
      converted neg (of_binary 53 1024 neg m e) (scaled 2 m e)
  | None =>
      let '(m, n, k, r') := mantissa 10 s1 in
      if n =? 0 then (zero, false)
      else
        let e := exponent "e" r' - k in
        converted neg (of_decimal 53 1024 neg m e) (scaled 10 m e)
  end end end.

(** A decimal constant of the C source, of type [double], and with the
    suffix [f], of type [float]. *)
Definition dconst (s : string) : double := fst (strtod s).

Definition fconst (s : string) : float :=
  let '(m, _, k, r) := mantissa 10 s in
  of_decimal 24 128 false m (exponent "e" r - k).

End Strtod.

(** ** gnulib: the [hash] module

    [paper.c] keeps its records in a gnulib [Hash_table] ([hash.h]).  The
    table is an array of buckets; a bucket is a chain whose first cell is
    the array slot itself, its other cells are the overflow entries.  A
    bucket is kept here as the list of the [data] pointers of its chain,
    the empty list for a slot whose [data] is [NULL].  The counters
    [n_buckets], [n_buckets_used] and [n_entries] are read off the array;
    [n_free] is the length of the list of spare overflow cells. *)

Module Hash.
Import Flt.

Section Table.

(** The entries ([void *] in C): [same] is the pointer comparison
    [entry == data], [hasher] and [comparator] are the two callbacks
    given to [hash_initialize]. *)
Variable A : Type.
Variable same : A -> A -> bool.
Variable hasher : A -> nat -> nat.
Variable comparator : A -> A -> bool.

Record Hash_table : Type := {
  bucket : list (list A);
  n_free : nat
}.

Definition n_buckets (t : Hash_table) : nat := List.length (bucket t).

Definition occupied (b : list A) : bool :=
  match b with [] => false | _ :: _ => true end.

Definition n_buckets_used (t : Hash_table) : nat :=
  List.length (filter occupied (bucket t)).

Definition n_entries (t : Hash_table) : nat := List.length (List.concat (bucket t)).

(** The default tuning: [DEFAULT_GROWTH_THRESHOLD] is [0.8f] and
    [DEFAULT_GROWTH_FACTOR] is [1.414f]; [is_n_buckets] is false. *)
Definition growth_threshold : float := Strtod.fconst "0.8".
Definition growth_factor : float := Strtod.fconst "1.414".

(** [is_prime], for an odd candidate; the loop runs at most
    [candidate] times. *)
Fixpoint is_prime_loop (fuel : nat) (candidate divisor square : Z) : bool :=
  match fuel with
  | O => negb (candidate mod divisor =? 0)
  | S fuel' =>
      if (square <? candidate) && negb (candidate mod divisor =? 0)
      then is_prime_loop fuel' candidate (divisor + 2)
                         (square + 4 * (divisor + 1))
      else negb (candidate mod divisor =? 0)
  end.

Definition is_prime (candidate : Z) : bool :=
  is_prime_loop (Z.to_nat candidate) candidate 3 9.

Fixpoint next_prime_loop (fuel : nat) (candidate : Z) : Z :=
  match fuel with
  | O => candidate
  | S fuel' =>
      if is_prime candidate then candidate
      else next_prime_loop fuel' (candidate + 2)
  end.

(** [next_prime]: the first prime from [candidate] on, at least 11.
    There is one below twice the candidate. *)
Definition next_prime (candidate : Z) : Z :=
  let c := if candidate <? 10 then 10 else candidate in
  let c := Z.lor c 1 in
  next_prime_loop (Z.to_nat c) c.

(** [compute_bucket_size]: [candidate / growth_threshold], computed in
    [float], then the next prime (sizes stay below [SIZE_MAX]). *)
Definition compute_bucket_size (candidate : Z) : nat :=
  let new_candidate := fdiv (of_Z 24 128 candidate) growth_threshold in
  Z.to_nat (next_prime (trunc new_candidate)).

(** [hash_initialize candidate NULL hasher comparator data_freer]. *)
Definition hash_initialize (candidate : Z) : Hash_table :=
  {| bucket := repeat [] (compute_bucket_size candidate); n_free := 0 |}.

(** [safe_hasher]: the bucket of a key. *)
Definition safe_hasher (t : Hash_table) (key : A) : nat :=
  hasher key (n_buckets t).

Definition nth_bucket (bs : list (list A)) (i : nat) : list A :=
  nth i bs [].

(** [hash_lookup]: the first entry of the key's bucket that is the
    key itself or that the comparator accepts. *)
Definition hash_lookup (t : Hash_table) (entry : A) : option A :=
  find (fun data => same entry data || comparator entry data)
       (nth_bucket (bucket t) (safe_hasher t entry)).

(** The [data] of the first occupied bucket of an array. *)
Fixpoint first_data (bs : list (list A)) : option A :=
  match bs with
  | [] => None
  | [] :: bs' => first_data bs'
  | (d :: _) :: _ => Some d
  end.

(** [hash_get_first]. *)
Definition hash_get_first (t : Hash_table) : option A :=
  first_data (bucket t).

(** The walk of [hash_get_next] along the chain of a bucket: the entry
    after the cell that holds [entry]. *)
Fixpoint next_in_chain (b : list A) (entry : A) : option A :=
  match b with
  | [] => None
  | d :: b' =>
      match b' with
      | d' :: _ => if same d entry then Some d' else next_in_chain b' entry
      | [] => None
      end
  end.

(** [hash_get_next]: the next entry of the bucket of [entry], else the
    first entry of the following buckets. *)
Definition hash_get_next (t : Hash_table) (entry : A) : option A :=
  let n := safe_hasher t entry in
  match next_in_chain (nth_bucket (bucket t) n) entry with
  | Some d => Some d
  | None => first_data (skipn (S n) (bucket t))
  end.

Fixpoint update (i : nat) (b : list A) (bs : list (list A)) : list (list A) :=
  match bs, i with
  | [], _ => []
  | _ :: bs', O => b :: bs'
  | b0 :: bs', S i' => b0 :: update i' b bs'
  end.

(** Where an entry that is put into a bucket comes from: the head of
    a bucket (or the caller), or an overflow cell.  It decides what
    happens to the list of spare cells. *)
Inductive origin : Type := from_head | from_overflow.

(** Put [d] into its bucket: in the head cell when the bucket is
    empty, else in a cell linked right after the head. *)
Definition place (o : origin) (st : list (list A) * nat) (d : A)
  : list (list A) * nat :=
  let '(bs, free) := st in
  let i := hasher d (List.length bs) in
  match nth_bucket bs i with
  | [] =>
      (update i [d] bs,
       match o with from_overflow => S free | from_head => free end)
  | h :: ovf =>
      (update i (h :: d :: ovf) bs,
       match o with from_head => Nat.pred free | from_overflow => free end)
  end.

(** [transfer_entries]: bucket by bucket, the overflow entries first
    and then the head. *)
Definition transfer_bucket (st : list (list A) * nat) (b : list A)
  : list (list A) * nat :=
  match b with
  | [] => st
  | h :: ovf => place from_head (fold_left (place from_overflow) ovf st) h
  end.

Definition transfer_entries (dst : list (list A) * nat) (src : list (list A))
  : list (list A) * nat :=
  fold_left transfer_bucket src dst.

(** [hash_rehash].  [mem_ok] tells whether memory can be allocated
    during the call; [None] is the result [false]. *)
Definition hash_rehash (mem_ok : bool) (t : Hash_table) (candidate : Z)
  : option Hash_table :=
  let new_size := compute_bucket_size candidate in
  if Nat.eqb new_size (n_buckets t) then Some t
  else if mem_ok then
    let '(bs, free) :=
      transfer_entries (repeat [] new_size, n_free t) (bucket t) in
    Some {| bucket := bs; n_free := free |}
  else None.

(** The test [n_buckets_used > growth_threshold * n_buckets]. *)
Definition growth_needed (t : Hash_table) : bool :=
  SFltb (fmul growth_threshold (of_Z 24 128 (Z.of_nat (n_buckets t))))
        (of_Z 24 128 (Z.of_nat (n_buckets_used t))).

(** The new size asked for:
    [n_buckets * growth_factor * growth_threshold], in [float]. *)
Definition growth_candidate (t : Hash_table) : Z :=
  trunc (fmul (fmul (of_Z 24 128 (Z.of_nat (n_buckets t))) growth_factor)
              growth_threshold).

(** [hash_insert], for an [entry] that is not [NULL]: the matching
    entry when there is one, else [entry], which is then added; [None]
    (for [NULL]) when memory is needed and cannot be had. *)
Definition hash_insert (mem_ok : bool) (t : Hash_table) (entry : A)
  : option A * Hash_table :=
  match hash_lookup t entry with
  | Some data => (Some data, t)
  | None =>
      match (if growth_needed t
             then hash_rehash mem_ok t (growth_candidate t)
             else Some t) with
      | None => (None, t)
      | Some t1 =>
          if occupied (nth_bucket (bucket t1) (safe_hasher t1 entry))
             && Nat.eqb (n_free t1) 0 && negb mem_ok
          then (None, t1)
          else
            let '(bs, free) := place from_head (bucket t1, n_free t1) entry in
            (Some entry, {| bucket := bs; n_free := free |})
      end
  end.

(** The entries in the order of [hash_get_first] and [hash_get_next]. *)
Definition entries (t : Hash_table) : list A := List.concat (bucket t).

(** The invariant of the array: every entry sits in the bucket that
    [hasher] gives it, and there is at least one bucket. *)
Definition in_place (bs : list (list A)) : Prop :=
  forall i d, In d (nth_bucket bs i) -> hasher d (List.length bs) = i.

Definition well_formed (t : Hash_table) : Prop :=
  (0 < n_buckets t)%nat /\ in_place (bucket t).

(** The same for the state of a transfer: the new array and the
    number of spare cells. *)
Definition sound (st : list (list A) * nat) : Prop :=
  (0 < List.length (fst st))%nat /\ in_place (fst st).

End Table.

Arguments bucket {A} _.
Arguments n_free {A} _.
Arguments n_buckets {A} _.
Arguments n_buckets_used {A} _.
Arguments n_entries {A} _.
Arguments entries {A} _.
Arguments occupied {A} _.
Arguments nth_bucket {A} _ _.
Arguments update {A} _ _ _.
Arguments first_data {A} _.
Arguments next_in_chain {A} _ _ _.
Arguments safe_hasher {A} _ _ _.
Arguments hash_lookup {A} _ _ _ _ _.
Arguments hash_get_first {A} _.
Arguments hash_get_next {A} _ _ _ _.
Arguments place {A} _ _ _ _.
Arguments transfer_bucket {A} _ _ _.
Arguments transfer_entries {A} _ _ _.
Arguments hash_rehash {A} _ _ _ _.
Arguments growth_needed {A} _.
Arguments growth_candidate {A} _.
Arguments hash_insert {A} _ _ _ _ _ _.
Arguments in_place {A} _ _.
Arguments well_formed {A} _ _.
Arguments sound {A} _ _.

(** [hash_string]: [value = (value * 31 + ch) % n_buckets] over the
    bytes of the string. *)
Fixpoint hash_string_from (value : nat) (s : string) (n : nat) : nat :=
  match s with
  | EmptyString => value
  | String ch r =>
      hash_string_from ((value * 31 + Z.to_nat (CLib.uchar ch)) mod n)%nat r n
  end.

Definition hash_string (s : string) (n : nat) : nat := hash_string_from 0 s n.

End Hash.

(** ** [paper.c] *)

Module Paper.
Import CLib Flt Strtod Hash.

(** *** Build-time constants and the process environment *)

(** The macros of [config.h] that [paper.c] uses, and whether the block
    under [#if defined LC_PAPER && defined _GNU_SOURCE] is compiled. *)
Record config : Type := {
  PAPERSPECS : string;
  PAPERCONF : string;
  PAPERSIZE : string;
  PAPERSIZEVAR : string;
  PAPERCONFVAR : string;
  LC_PAPER : bool
}.

(** What [malloc] and the allocations inside [hash_insert] answer while
    the [k]-th record is made. *)
Record memory : Type := {
  malloc_ok : nat -> bool;
  hash_ok : nat -> bool
}.

(** The world outside the process: [getenv], [stat] (does it return 0),
    [fopen] for reading (the contents of the file), the two words that
    [nl_langinfo] gives for [_NL_PAPER_WIDTH] and [_NL_PAPER_HEIGHT],
    and the memory. *)
Record world : Type := {
  getenv : string -> option string;
  stat : string -> bool;
  fopen : string -> option string;
  nl_paper : Z * Z;
  mem : memory
}.

(** *** The unit table *)

Definition units : list (string * float) :=
  [ ("in", to_float (dconst "1."));
    ("ft", to_float (dconst "12."));
    ("pt", to_float (ddiv (dconst "1.") (dconst "72.")));
    ("m",  to_float (ddiv (dconst "100.") (dconst "2.54")));
    ("dm", to_float (ddiv (dconst "10.") (dconst "2.54")));
    ("cm", to_float (ddiv (dconst "1.") (dconst "2.54")));
    ("mm", to_float (ddiv (dconst ".1") (dconst "2.54"))) ].

Fixpoint unitfactor_in (us : list (string * float)) (unit : string) : float :=
  match us with
  | [] => zero
  | (uname, factor) :: us' =>
      if strcasecmp uname unit =? 0 then factor else unitfactor_in us' unit
  end.

Definition unitfactor (unit : string) : float := unitfactor_in units unit.

(** *** The tokenizer *)

(** The loop that skips the bytes for which [isspace] holds. *)
Fixpoint skip_blanks (p : string) : string :=
  match p with
  | String c r => if isspace c then skip_blanks r else p
  | EmptyString => p
  end.

(** Does [gettokline] return this line: its first non-blank is neither
    the end of the string nor a hash. *)
Definition has_token (l : string) : bool :=
  match skip_blanks (cstr l) with
  | EmptyString => false
  | String c _ => negb (Ascii.eqb c "#"%char)
  end.

(** [gettokline]: the loop over [getline], which gives the head of the
    stream. *)
Fixpoint gettokline (fp : FILE) : option (string * FILE) :=
  match fp with
  | [] => None
  | l :: fp' => if has_token l then Some (l, fp') else gettokline fp'
  end.

(** [for (; p[i] && !isspace(p[i]); i++)]: the token and what follows. *)
Fixpoint span_token (p : string) : string * string :=
  match p with
  | String c r =>
      if isspace c then (EmptyString, p)
      else let '(tok, rest) := span_token r in (String c tok, rest)
  | EmptyString => (EmptyString, p)
  end.

(** [gettok]: [p] is the place to read from (the string on the first
    call, [*saveptr] afterwards); the result is the token, [None] for
    [NULL], and the new [*saveptr]. *)
Definition gettok (p : string) : option string * string :=
  let '(tok, saveptr) := span_token (skip_blanks p) in
  match tok with
  | EmptyString => (None, saveptr)
  | _ => (Some tok, saveptr)
  end.

(** *** Records and the table *)

Record paper : Type := {
  name : string;
  pswidth : double;
  psheight : double
}.

(** A [struct paper *]: the address, and the record found there (a
    record is written once, when it is made). *)
Record paper_ptr : Type := {
  addr : nat;
  pointee : paper
}.

Definition ptr_eq (v w : paper_ptr) : bool := Nat.eqb (addr v) (addr w).

Definition paperhash (v : paper_ptr) (n : nat) : nat :=
  hash_string (name (pointee v)) n.

Definition papereq (v w : paper_ptr) : bool :=
  strcasecmp (name (pointee v)) (name (pointee w)) =? 0.

(** The table that the global [papers] points to. *)
Definition table : Type := Hash_table paper_ptr.

(** The invariant of the table while [paperinit] runs and after it,
    [k] being the next address that [malloc] gives: the table is well
    formed, its records have distinct addresses given by [malloc] so
    far, and their names are non-empty C strings. *)
Definition table_ok (k : nat) (papers : table) : Prop :=
  well_formed paperhash papers /\
  NoDup (map addr (entries papers)) /\
  Forall (fun d => (1 <= addr d < k)%nat /\
                   name (pointee d) <> EmptyString /\
                   cstr (name (pointee d)) = name (pointee d))
         (entries papers).

(** *** [paperinit] *)

(** How a call ends: it returns a value, or the process is aborted. *)
Inductive outcome : Type :=
| Returned (ret : Z)
| Aborted.

(** The four calls of [gettok] on a line. *)
Definition line_tokens (l : string)
  : option string * option string * option string * option string :=
  let '(tname, saveptr) := gettok (cstr l) in
  let '(wstr, saveptr) := gettok saveptr in
  let '(hstr, saveptr) := gettok saveptr in
  let '(unit, _) := gettok saveptr in
  (tname, wstr, hstr, unit).

(** The body of the loop of [paperinit], entered with [ret == 0], for
    the line [l]; [k] is the address that [malloc] gives.  When [malloc]
    fails, [hash_insert] is called with [NULL] and aborts. *)
Definition paperinit_line (m : memory) (k : nat) (papers : table) (l : string)
  : outcome * table :=
  match line_tokens l with
  | (Some tname, Some wstr, Some hstr, unit) =>
      let ret := 0 in
      let '(w, errno) := strtod wstr in
      let ret := if errno then 1 else ret in
      let '(h, errno) := strtod hstr in
      let ret := if errno then 1 else ret in
      let '(ret, w, h) :=
        match unit with
        | Some unit =>
            let dim := unitfactor unit in
            if eqb dim zero then (1, w, h)
            else (ret, dmul w (to_double dim), dmul h (to_double dim))
        | None => (ret, w, h)
        end in
      if malloc_ok m k then
        let p := {| addr := k;
                    pointee := {| name := tname; pswidth := w; psheight := h |} |} in
        match hash_insert ptr_eq paperhash papereq (hash_ok m k) papers p with
        | (None, papers') => (Returned (-1), papers')
        | (Some _, papers') => (Returned ret, papers')
        end
      else (Aborted, papers)
  | _ => (Returned 2, papers)
  end.

(** The unit token is there and [unitfactor] gives 0 for it. *)
Definition unknown_unit (unit : option string) : bool :=
  match unit with
  | Some u => eqb (unitfactor u) zero
  | None => false
  end.

(** The loop [for (l = NULL; ret == 0 && (l = gettokline(ps));)], by
    recursion on the lines left in the stream. *)
Fixpoint paperinit_loop (m : memory) (ps : FILE) (k : nat) (papers : table)
  : outcome * table :=
  match ps with
  | [] => (Returned 0, papers)
  | l :: ps' =>
      if has_token l then
        match paperinit_line m k papers l with
        | (Returned 0, papers') => paperinit_loop m ps' (S k) papers'
        | stop => stop
        end
      else paperinit_loop m ps' k papers
  end.

(** [paperinit]: what it returns and the table it leaves in [papers]. *)
Definition paperinit (cfg : config) (w : world) : outcome * table :=
  let papers := hash_initialize paper_ptr 256 in
  match fopen w (PAPERSPECS cfg) with
  | Some ps => paperinit_loop (mem w) (getlines ps) 1 papers
  | None => (Returned (-1), papers)
  end.

(** *** The queries.  They [assert(papers)]: each is given the table. *)

Definition papername (spaper : paper_ptr) : string := name (pointee spaper).
Definition paperpswidth (spaper : paper_ptr) : double := pswidth (pointee spaper).
Definition paperpsheight (spaper : paper_ptr) : double := psheight (pointee spaper).

Definition paperfirst (papers : table) : option paper_ptr :=
  hash_get_first papers.

Definition papernext (papers : table) (spaper : paper_ptr) : option paper_ptr :=
  hash_get_next ptr_eq paperhash papers spaper.

(** [struct paper p = {paper, 0, 0}] is a local variable: its address,
    0 here, is not one that [malloc] gives. *)
Definition paperinfo (papers : table) (paper : string) : option paper_ptr :=
  let p := {| addr := 0;
              pointee := {| name := paper; pswidth := zero; psheight := zero |} |} in
  hash_lookup ptr_eq paperhash papereq papers p.

(** The loop [for (pp = paperfirst(); pp; pp = papernext(pp)) if (found
    pp) return pp;] from the entry [pp] on.  [Some r] is the end of the
    loop with [r] found ([None] for [NULL]); the loop has not ended
    when the fuel runs out. *)
Fixpoint scan_from (found : paper_ptr -> bool) (fuel : nat) (papers : table)
         (pp : option paper_ptr) : option (option paper_ptr) :=
  match pp with
  | None => Some None
  | Some p =>
      if found p then Some (Some p)
      else match fuel with
           | O => None
           | S fuel' => scan_from found fuel' papers (papernext papers p)
           end
  end.

Definition scan (found : paper_ptr -> bool) (papers : table)
  : option (option paper_ptr) :=
  scan_from found (n_entries papers) papers (paperfirst papers).

Definition paperwithsize (papers : table) (pswidth psheight : double)
  : option (option paper_ptr) :=
  scan (fun pp => eqb (paperpswidth pp) pswidth && eqb (paperpsheight pp) psheight)
       papers.

(** *** The resolvers *)

Definition systempapersizefile (cfg : config) (w : world) : string :=
  match getenv w (PAPERCONFVAR cfg) with
  | Some paperconf => paperconf
  | None => PAPERCONF cfg
  end.

(** [PT_TO_MM(v)]: [(unsigned int)((v * 2.54 * 10 / 72) + 0.5)]. *)
Definition PT_TO_MM (v : double) : Z :=
  trunc (dadd (ddiv (dmul (dmul v (dconst "2.54")) (of_Z 53 1024 10))
                    (of_Z 53 1024 72))
              (dconst "0.5")) mod 2 ^ 32.

(** [defaultpapername]; [None] stands for a loop that does not end. *)
Definition defaultpapername (cfg : config) (w : world) (papers : table)
  : option string :=
  if LC_PAPER cfg then
    let '(lw, lh) := nl_paper w in
    match scan (fun pp => (PT_TO_MM (paperpswidth pp) =? lw)
                          && (PT_TO_MM (paperpsheight pp) =? lh)) papers with
    | Some (Some pp) => Some (papername pp)
    | Some None => Some (PAPERSIZE cfg)
    | None => None
    end
  else Some (PAPERSIZE cfg).

(** The name read from the configuration file, if any. *)
Definition paperconf_name (cfg : config) (w : world) : option string :=
  let paperconf := systempapersizefile cfg w in
  if stat w paperconf then
    match fopen w paperconf with
    | Some ps =>
        match gettokline (getlines ps) with
        | Some (l, _) => fst (gettok (cstr l))
        | None => None
        end
    | None => None
    end
  else None.

(** The string [paperstr] before it is looked up. *)
Definition rawpapername (cfg : config) (w : world) : string :=
  match getenv w (PAPERSIZEVAR cfg) with
  | Some paperenv => paperenv
  | None =>
      match paperconf_name cfg w with
      | Some paperstr => paperstr
      | None => PAPERSIZE cfg
      end
  end.

Definition systempapername (cfg : config) (w : world) (papers : table) : string :=
  let paperstr := rawpapername cfg w in
  match paperinfo papers paperstr with
  | Some pp => papername pp
  | None => paperstr
  end.

End Paper.

(** ** Sample inputs *)

Module Samples.
Import Paper.

Definition nl : string := String CLib.newline EmptyString.

Definition cfg : config :=
  {| PAPERSPECS := "/etc/paperspecs";
     PAPERCONF := "/etc/papersize";
     PAPERSIZE := "letter";
     PAPERSIZEVAR := "PAPERSIZE";
     PAPERCONFVAR := "PAPERCONF";
     LC_PAPER := true |}.

(** Memory that never runs out, and memory in which [malloc] fails. *)
Definition plenty : memory :=
  {| malloc_ok := fun _ => true; hash_ok := fun _ => true |}.

Definition exhausted : memory :=
  {| malloc_ok := fun _ => false; hash_ok := fun _ => true |}.

(** Memory in which [malloc] gives the records but [hash_insert] finds
    none for its own cells. *)
Definition tight : memory :=
  {| malloc_ok := fun _ => true; hash_ok := fun _ => false |}.

(** A system: the value of the variable [PAPERSIZE] if it is set, the
    contents of the specification file, those of the configuration file
    if there is one, and the memory.  The locale says 210 by 297 mm. *)
Definition sys (papersize : option string) (specs : string)
           (conf : option string) (m : memory) : world :=
  {| getenv := fun v => if String.eqb v "PAPERSIZE" then papersize else None;
     stat := fun path => String.eqb path "/etc/papersize"
                         && match conf with Some _ => true | None => false end;
     fopen := fun path =>
                if String.eqb path "/etc/paperspecs" then Some specs
                else if String.eqb path "/etc/papersize" then conf
                else None;
     nl_paper := (210, 297)%Z;
     mem := m |}.

(** The table that [paperinit] leaves for a specification file. *)
Definition catalog (specs : string) : table :=
  snd (paperinit cfg (sys None specs None plenty)).

End Samples.

(** ** Words for the properties of the tokenizer, of the loop of
    [paperinit] and of the traversal *)

Module Shape.
Import CLib Flt Strtod Hash Paper.

(** A string of white space only. *)
Fixpoint all_space (s : string) : bool :=
  match s with
  | EmptyString => true
  | String c r => isspace c && all_space r
  end.

(** A string with no white space and no NUL in it. *)
Fixpoint no_space (s : string) : bool :=
  match s with
  | EmptyString => true
  | String c r => negb (isspace c) && negb (uchar c =? 0) && no_space r
  end.

(** What [gettok] returns: a non-empty string with no white space. *)
Definition token (s : string) : bool :=
  match s with
  | EmptyString => false
  | String _ _ => no_space s
  end.

(** Does a string begin with white space. *)
Definition starts_with_space (s : string) : bool :=
  match s with
  | EmptyString => false
  | String c _ => isspace c
  end.

(** A string byte by byte through [tolower]: two C strings are equal
    for [strcasecmp] when they are the same so lowered. *)
Fixpoint lower (s : string) : list Z :=
  match s with
  | EmptyString => []
  | String c r => tolower c :: lower r
  end.

(** The name of a record, lowered. *)
Definition lname (p : paper) : list Z := lower (name p).

(** The width or height that [paperinit] stores for the value [x] read by
    [strtod], given the unit token. *)
Definition scale (unit : option string) (x : double) : double :=
  match unit with
  | Some u =>
      if eqb (unitfactor u) zero then x else dmul x (to_double (unitfactor u))
  | None => x
  end.

(** The record that [paperinit] makes from a line, if the line has its
    three tokens. *)
Definition line_paper (l : string) : option paper :=
  match line_tokens l with
  | (Some tname, Some wstr, Some hstr, unit) =>
      Some {| name := tname;
              pswidth := scale unit (fst (strtod wstr));
              psheight := scale unit (fst (strtod hstr)) |}
  | _ => None
  end.

(** The records of the lines of a stream that [gettokline] returns. *)
Fixpoint line_papers (ps : FILE) : list paper :=
  match ps with
  | [] => []
  | l :: ps' =>
      if has_token l then
        match line_paper l with
        | Some p => p :: line_papers ps'
        | None => line_papers ps'
        end
      else line_papers ps'
  end.

(** The value that the body of the loop of [paperinit] gives to [ret]
    for a line, when memory is at hand. *)
Definition line_code (l : string) : Z :=
  match line_tokens l with
  | (Some _, Some wstr, Some hstr, unit) =>
      if snd (strtod wstr) || snd (strtod hstr) || unknown_unit unit
      then 1 else 0
  | _ => 2
  end.



(** The records that the loop [for (pp = paperfirst(); pp; pp =
    papernext(pp))] goes through, from [pp] on; [None] when the loop has
    not ended when the fuel runs out. *)
Fixpoint walk_from (fuel : nat) (papers : table) (pp : option paper_ptr)
  : option (list paper_ptr) :=
  match pp with
  | None => Some []
  | Some p =>
      match fuel with
      | O => None
      | S fuel' =>
          option_map (cons p) (walk_from fuel' papers (papernext papers p))
      end
  end.

Definition walk (papers : table) : option (list paper_ptr) :=
  walk_from (n_entries papers) papers (paperfirst papers).

End Shape.

(** ** Facts about the hash table *)

Module HashFacts.
Import Hash.
Local Open Scope nat_scope.
Local Open Scope list_scope.

Section Facts.

Variable A : Type.
Variable same : A -> A -> bool.
Variable hasher : A -> nat -> nat.
Variable comparator : A -> A -> bool.

(** The hasher keeps within the array, as [safe_hasher] demands. *)
Hypothesis hasher_lt : forall d n, 0 < n -> hasher d n < n.

(** Pointers are told apart by their address. *)
Variable key : A -> nat.
Hypothesis same_key : forall x y, same x y = Nat.eqb (key x) (key y).

Lemma update_keeps_length i b (bs : list (list A)) :
  List.length (update i b bs) = List.length bs.
Proof.
  revert i; induction bs as [|b0 bs IH]; intros [|i]; simpl; auto.
Qed.

Lemma nth_update_here i b (bs : list (list A)) :
  i < List.length bs -> nth_bucket (update i b bs) i = b.
Proof.
  revert i; induction bs as [|b0 bs IH]; intros [|i] Hi; simpl in *;
    try lia; auto.
  apply IH; lia.
Qed.

Lemma nth_update_elsewhere i j b (bs : list (list A)) :
  i <> j -> nth_bucket (update i b bs) j = nth_bucket bs j.
Proof.
  revert i j; induction bs as [|b0 bs IH]; intros [|i] [|j] Hij; simpl;
    try congruence; auto.
  apply IH; congruence.
Qed.

Lemma concat_update i b d (bs : list (list A)) :
  i < List.length bs ->
  Permutation b (d :: nth_bucket bs i) ->
  Permutation (List.concat (update i b bs)) (d :: List.concat bs).
Proof.
  revert i; induction bs as [|b0 bs IH]; intros [|i] Hi Hb; simpl in *;
    try lia.
  - change (d :: b0 ++ List.concat bs) with ((d :: b0) ++ List.concat bs).
    now apply Permutation_app_tail.
  - transitivity (b0 ++ d :: List.concat bs).
    + apply Permutation_app_head, IH; [lia | exact Hb].
    + symmetry; apply Permutation_middle.
Qed.

Lemma In_nth_bucket (bs : list (list A)) i d :
  In d (nth_bucket bs i) -> In d (List.concat bs).
Proof.
  revert i; induction bs as [|b0 bs IH]; intros [|i] H; simpl in *;
    try contradiction; apply in_or_app; eauto.
Qed.

Lemma In_concat_bucket (bs : list (list A)) d :
  In d (List.concat bs) -> exists i, In d (nth_bucket bs i).
Proof.
  induction bs as [|b0 bs IH]; simpl; [contradiction|].
  intros H; apply in_app_or in H as [H|H].
  - now exists 0.
  - destruct (IH H) as [i Hi]; now exists (S i).
Qed.

(** *** Putting an entry into its bucket *)

Lemma place_length o bs f d :
  List.length (fst (place hasher o (bs, f) d)) = List.length bs.
Proof.
  unfold place; destruct (nth_bucket bs _); simpl; apply update_keeps_length.
Qed.

Lemma place_entries o bs f d :
  0 < List.length bs ->
  Permutation (List.concat (fst (place hasher o (bs, f) d)))
              (d :: List.concat bs).
Proof.
  intros Hn; unfold place.
  destruct (nth_bucket bs _) as [|h ovf] eqn:E; simpl;
    (apply concat_update; [now apply hasher_lt|rewrite E]).
  - apply Permutation_refl.
  - apply perm_swap.
Qed.

Lemma place_in_place o bs f d :
  0 < List.length bs ->
  in_place hasher bs -> in_place hasher (fst (place hasher o (bs, f) d)).
Proof.
  intros Hn Hbs j x Hx.
  rewrite place_length.
  assert (Hi := hasher_lt d _ Hn).
  unfold place in Hx.
  destruct (Nat.eq_dec (hasher d (List.length bs)) j) as [<-|Hne].
  - destruct (nth_bucket bs _) as [|h ovf] eqn:E; simpl in Hx;
      rewrite nth_update_here in Hx by exact Hi.
    + destruct Hx as [<-|[]]; reflexivity.
    + destruct Hx as [<-|[<-|Hx]]; try reflexivity;
        apply Hbs; rewrite E; simpl; auto.
  - destruct (nth_bucket bs _) as [|h ovf] eqn:E; simpl in Hx;
      rewrite nth_update_elsewhere in Hx by exact Hne; now apply Hbs.
Qed.

Lemma place_sound o st d :
  sound hasher st -> sound hasher (place hasher o st d).
Proof.
  destruct st as [bs f]; intros [Hn Hp]; split.
  - rewrite place_length; exact Hn.
  - now apply place_in_place.
Qed.

Lemma fold_place o l st :
  sound hasher st ->
  let st' := fold_left (place hasher o) l st in
  sound hasher st' /\
  List.length (fst st') = List.length (fst st) /\
  Permutation (List.concat (fst st')) (l ++ List.concat (fst st)).
Proof.
  revert st; induction l as [|d l IH]; intros st Hst; simpl.
  - repeat split; try apply Hst; apply Permutation_refl.
  - destruct (IH (place hasher o st d) (place_sound o st d Hst))
      as (Hs & Hl & Hp).
    split; [exact Hs|split].
    + rewrite Hl; destruct st; apply place_length.
    + etransitivity; [exact Hp|].
      destruct st as [bs f]; simpl.
      etransitivity;
        [apply Permutation_app_head, place_entries, Hst|].
      symmetry; apply Permutation_middle.
Qed.

Lemma transfer_bucket_spec st b :
  sound hasher st ->
  let st' := transfer_bucket hasher st b in
  sound hasher st' /\
  List.length (fst st') = List.length (fst st) /\
  Permutation (List.concat (fst st')) (b ++ List.concat (fst st)).
Proof.
  intros Hst; destruct b as [|h ovf]; unfold transfer_bucket; cbv zeta.
  - repeat split; try apply Hst; apply Permutation_refl.
  - destruct (fold_place from_overflow ovf st Hst) as (Hs & Hl & Hp).
    set (st1 := fold_left (place hasher from_overflow) ovf st) in *.
    split; [now apply place_sound|split].
    + destruct st1 as [bs1 f1]; rewrite place_length; exact Hl.
    + destruct st1 as [bs1 f1]; cbn [fst] in Hp, Hs |- *.
      etransitivity; [apply place_entries, Hs|].
      rewrite <- app_comm_cons; now apply perm_skip.
Qed.

Lemma transfer_entries_spec src st :
  sound hasher st ->
  let st' := transfer_entries hasher st src in
  sound hasher st' /\
  List.length (fst st') = List.length (fst st) /\
  Permutation (List.concat (fst st')) (List.concat src ++ List.concat (fst st)).
Proof.
  unfold transfer_entries.
  revert st; induction src as [|b src IH]; intros st Hst; simpl.
  - repeat split; try apply Hst; apply Permutation_refl.
  - destruct (transfer_bucket_spec st b Hst) as (Hs & Hl & Hp).
    destruct (IH _ Hs) as (Hs' & Hl' & Hp').
    split; [exact Hs'|split]; [congruence|].
    etransitivity; [exact Hp'|].
    etransitivity; [apply Permutation_app_head, Hp|].
    rewrite <- app_assoc.
    rewrite !app_assoc; apply Permutation_app_tail, Permutation_app_comm.
Qed.

(** *** Sizes *)

Lemma next_prime_loop_ge fuel c : (c <= next_prime_loop fuel c)%Z.
Proof.
  revert c; induction fuel as [|fuel IH]; intros c; simpl; [lia|].
  destruct (is_prime c); [lia|].
  specialize (IH (c + 2)%Z); lia.
Qed.

Lemma compute_bucket_size_pos c : 0 < compute_bucket_size c.
Proof.
  unfold compute_bucket_size, next_prime.
  set (x := Flt.trunc _).
  set (c0 := if (x <? 10)%Z then 10%Z else x).
  assert (H0 : (0 <= c0)%Z) by (unfold c0; destruct (Z.ltb_spec x 10); lia).
  assert (H1 : (0 <= Z.lor c0 1)%Z) by (apply Z.lor_nonneg; lia).
  assert (H2 : Z.lor c0 1 <> 0%Z)
    by (intros H; apply Z.lor_eq_0_iff in H; lia).
  pose proof (next_prime_loop_ge (Z.to_nat (Z.lor c0 1)) (Z.lor c0 1)).
  lia.
Qed.

Lemma concat_repeat_nil n : List.concat (repeat (@nil A) n) = [].
Proof. induction n; simpl; auto. Qed.

Lemma repeat_nil_in_place n : in_place hasher (repeat (@nil A) n).
Proof.
  intros i d H; unfold nth_bucket in H.
  rewrite nth_repeat in H; destruct H.
Qed.

Lemma hash_initialize_well_formed c :
  well_formed hasher (hash_initialize A c).
Proof.
  split.
  - unfold n_buckets, hash_initialize; simpl.
    rewrite repeat_length; apply compute_bucket_size_pos.
  - apply repeat_nil_in_place.
Qed.

Lemma hash_initialize_entries c : entries (hash_initialize A c) = [].
Proof. apply concat_repeat_nil. Qed.

(** *** [hash_rehash] and [hash_insert] keep the invariant and the
    entries *)

Lemma hash_rehash_spec mem t c t' :
  well_formed hasher t ->
  hash_rehash hasher mem t c = Some t' ->
  well_formed hasher t' /\ Permutation (entries t') (entries t).
Proof.
  intros Ht; unfold hash_rehash.
  destruct (Nat.eqb _ _).
  - intros [= <-]; split; [exact Ht|apply Permutation_refl].
  - destruct mem; [|discriminate].
    assert (Hs : sound hasher (repeat (@nil A) (compute_bucket_size c), n_free t)).
    { split; simpl.
      - rewrite repeat_length; apply compute_bucket_size_pos.
      - apply repeat_nil_in_place. }
    destruct (transfer_entries_spec (bucket t) _ Hs) as (Hs' & _ & Hp).
    destruct (transfer_entries hasher _ (bucket t)) as [bs f].
    intros [= <-]; split; [exact Hs'|].
    unfold entries; simpl in *.
    rewrite concat_repeat_nil, app_nil_r in Hp; exact Hp.
Qed.

Lemma hash_insert_spec mem t e r t' :
  well_formed hasher t ->
  hash_insert same hasher comparator mem t e = (r, t') ->
  well_formed hasher t' /\
  match hash_lookup same hasher comparator t e with
  | Some d => r = Some d /\ t' = t
  | None =>
      (r = Some e /\ Permutation (entries t') (e :: entries t)) \/
      (r = None /\ mem = false /\ Permutation (entries t') (entries t))
  end.
Proof.
  intros Ht; unfold hash_insert.
  destruct (hash_lookup same hasher comparator t e) as [d|].
  - intros [= <- <-]; auto.
  - destruct (if growth_needed t then _ else _) as [t1|] eqn:E.
    + assert (H1 : well_formed hasher t1 /\ Permutation (entries t1) (entries t)).
      { destruct (growth_needed t).
        - eapply hash_rehash_spec; eauto.
        - injection E as <-; split; [exact Ht|apply Permutation_refl]. }
      destruct H1 as [[Hn Hp] Hperm].
      destruct (_ && _ && _) eqn:Em.
      * intros [= <- <-]; split; [split; assumption|right].
        repeat split; auto.
        apply andb_prop in Em as [_ Em]; now destruct mem.
      * pose proof (place_length from_head (bucket t1) (n_free t1) e) as Hl.
        pose proof (place_entries from_head (bucket t1) (n_free t1) e Hn) as He.
        pose proof (place_in_place from_head (bucket t1) (n_free t1) e Hn Hp) as Hi.
        destruct (place hasher from_head _ e) as [bs f]; simpl in *.
        intros [= <- <-]; split; [split|left; split; auto].
        -- unfold n_buckets; simpl; rewrite Hl; exact Hn.
        -- exact Hi.
        -- unfold entries; simpl.
           etransitivity; [exact He|now apply perm_skip].
    + intros [= <- <-]; split; [exact Ht|right].
      destruct (growth_needed t); [|discriminate].
      unfold hash_rehash in E.
      destruct (Nat.eqb _ _); [discriminate|].
      destruct mem; [|repeat split; apply Permutation_refl].
      destruct (transfer_entries _ _ _); discriminate.
Qed.

(** With memory at hand [hash_insert] does not return [NULL]. *)
Lemma hash_insert_mem_ok t e :
  fst (hash_insert same hasher comparator true t e) <> None.
Proof.
  unfold hash_insert.
  destruct (hash_lookup _ _ _ t e); [discriminate|].
  assert (exists t1, (if growth_needed t
                      then hash_rehash hasher true t (growth_candidate t)
                      else Some t) = Some t1) as [t1 ->].
  { destruct (growth_needed t); [|eauto].
    unfold hash_rehash; destruct (Nat.eqb _ _); [eauto|].
    destruct (transfer_entries _ _ _); eauto. }
  rewrite andb_false_r.
  destruct (place _ _ _ _); discriminate.
Qed.

(** *** [hash_lookup] *)

Lemma hash_lookup_sound t e d :
  hash_lookup same hasher comparator t e = Some d ->
  In d (entries t) /\ (same e d || comparator e d) = true.
Proof.
  unfold hash_lookup; intros H; apply find_some in H as [H1 H2].
  split; [eapply In_nth_bucket; eauto|exact H2].
Qed.

Lemma hash_lookup_complete t e d :
  well_formed hasher t ->
  In d (entries t) ->
  hasher e (n_buckets t) = hasher d (n_buckets t) ->
  comparator e d = true ->
  hash_lookup same hasher comparator t e <> None.
Proof.
  intros [_ Hp] Hd Hh Hc Hnone.
  apply In_concat_bucket in Hd as [i Hi].
  pose proof (Hp i d Hi) as Hid.
  unfold hash_lookup, safe_hasher in Hnone.
  rewrite Hh in Hnone; unfold n_buckets in Hnone; rewrite Hid in Hnone.
  pose proof (find_none _ _ Hnone d Hi) as Hf; simpl in Hf.
  rewrite Hc, orb_true_r in Hf; discriminate.
Qed.

(** *** The traversal: [hash_get_first] and [hash_get_next] go through
    the buckets in order *)

Lemma first_data_concat (bs : list (list A)) :
  first_data bs = hd_error (List.concat bs).
Proof.
  induction bs as [|[|d b] bs IH]; simpl; auto.
Qed.

Lemma hash_get_first_entries (t : Hash_table A) : hash_get_first t = hd_error (entries t).
Proof. apply first_data_concat. Qed.

Lemma next_in_chain_split c1 d c2 :
  (forall x, In x c1 -> same x d = false) ->
  next_in_chain same (c1 ++ d :: c2) d = hd_error c2.
Proof.
  induction c1 as [|x c1 IH]; intros Hc1.
  - simpl; destruct c2 as [|d' c2]; auto.
    rewrite same_key, Nat.eqb_refl; reflexivity.
  - change ((x :: c1) ++ d :: c2) with (x :: (c1 ++ d :: c2)).
    cbn [next_in_chain].
    destruct (c1 ++ d :: c2) as [|y l] eqn:E.
    + destruct c1; discriminate.
    + rewrite (Hc1 x) by (left; reflexivity).
      apply IH; intros; apply Hc1; now right.
Qed.

Lemma skipn_past (bs1 : list (list A)) b bs2 :
  skipn (S (List.length bs1)) (bs1 ++ b :: bs2) = bs2.
Proof. induction bs1; simpl; auto. Qed.

Lemma nth_bucket_middle (bs1 : list (list A)) b bs2 :
  nth_bucket (bs1 ++ b :: bs2) (List.length bs1) = b.
Proof. unfold nth_bucket; induction bs1; simpl; auto. Qed.

Lemma key_apart l1 (d : A) l2 x :
  NoDup (map key (l1 ++ d :: l2)) -> In x l1 -> same x d = false.
Proof.
  intros Hnd Hx; rewrite same_key; apply Nat.eqb_neq; intros Hk.
  rewrite map_app in Hnd; simpl in Hnd.
  apply NoDup_remove_2 in Hnd; apply Hnd, in_or_app; left.
  rewrite <- Hk; now apply in_map.
Qed.

Lemma hash_get_next_split t bs1 c1 d c2 bs2 :
  bucket t = bs1 ++ (c1 ++ d :: c2) :: bs2 ->
  in_place hasher (bucket t) ->
  NoDup (map key (entries t)) ->
  hash_get_next same hasher t d = hd_error (c2 ++ List.concat bs2).
Proof.
  intros Hb Hp Hnd.
  assert (Hd : safe_hasher hasher t d = List.length bs1).
  { apply Hp; rewrite Hb, nth_bucket_middle; apply in_or_app; right; now left. }
  unfold hash_get_next; rewrite Hd, Hb, nth_bucket_middle, skipn_past.
  rewrite next_in_chain_split.
  - destruct c2; simpl; [apply first_data_concat|reflexivity].
  - intros x Hx.
    unfold entries in Hnd; rewrite Hb, concat_app in Hnd; simpl in Hnd.
    rewrite <- app_assoc, app_assoc in Hnd.
    eapply (key_apart (List.concat bs1 ++ c1)); [|apply in_or_app; right; exact Hx].
    rewrite <- app_assoc. rewrite <- app_assoc in Hnd. simpl in Hnd. exact Hnd.
Qed.

(** A non-empty concatenation starts in some bucket, after empty ones. *)
Lemma concat_cons_split (bs : list (list A)) d l :
  List.concat bs = d :: l ->
  exists es c bs', bs = es ++ (d :: c) :: bs' /\ List.concat es = [] /\
                   l = c ++ List.concat bs'.
Proof.
  induction bs as [|[|x b] bs IH]; simpl; intros H; [discriminate| |].
  - destruct (IH H) as (es & c & bs' & -> & He & ->).
    exists ([] :: es), c, bs'; auto.
  - injection H as -> <-; exists [], b, bs; auto.
Qed.

End Facts.
End HashFacts.

(** ** Facts about [paper.c] *)

Module PaperFacts.
Import CLib Flt Strtod Hash HashFacts Paper.
Local Open Scope nat_scope.
Local Open Scope list_scope.

(** *** Strings *)

Lemma strcasecmp_refl s : strcasecmp s s = 0%Z.
Proof.
  induction s as [|c s IH]; simpl; [reflexivity|].
  now rewrite Z.eqb_refl.
Qed.

Lemma tolower_pos c : (uchar c <> 0 -> tolower c <> 0)%Z.
Proof.
  unfold tolower; intros H.
  destruct (_ && _) eqn:E; [|exact H].
  apply andb_prop in E as [E _]; apply Z.leb_le in E; lia.
Qed.

Lemma strcasecmp_empty s :
  cstr s = s -> strcasecmp EmptyString s = 0%Z -> s = EmptyString.
Proof.
  destruct s as [|c s]; [reflexivity|]; simpl.
  destruct (Z.eqb_spec (uchar c) 0) as [|Hc]; [discriminate|].
  intros _ H; apply tolower_pos in Hc; lia.
Qed.

Lemma cstr_idem s : cstr (cstr s) = cstr s.
Proof.
  induction s as [|c s IH]; simpl; [reflexivity|].
  destruct (Z.eqb_spec (uchar c) 0) as [|Hc]; [reflexivity|].
  simpl; destruct (Z.eqb_spec (uchar c) 0); [contradiction|now rewrite IH].
Qed.

Lemma cstr_tail c s : cstr (String c s) = String c s -> cstr s = s.
Proof.
  simpl; destruct (uchar c =? 0)%Z; [discriminate|congruence].
Qed.

Lemma skip_blanks_cstr s : cstr s = s -> cstr (skip_blanks s) = skip_blanks s.
Proof.
  induction s as [|c s IH]; intros H; [reflexivity|].
  cbn [skip_blanks]; destruct (isspace c); [|exact H].
  apply IH; eapply cstr_tail; eauto.
Qed.

Lemma span_token_cstr s :
  cstr s = s ->
  cstr (fst (span_token s)) = fst (span_token s) /\
  cstr (snd (span_token s)) = snd (span_token s).
Proof.
  induction s as [|c s IH]; intros H; [split; reflexivity|].
  cbn [span_token]; destruct (isspace c); [split; [reflexivity|exact H]|].
  pose proof (cstr_tail _ _ H) as Hs; destruct (IH Hs) as [H1 H2].
  destruct (span_token s) as [tok rest]; simpl in *.
  destruct (uchar c =? 0)%Z; [discriminate|]; split; congruence.
Qed.

(** A token is a non-empty C string, and so is what follows it. *)
Lemma gettok_token p tok saveptr :
  cstr p = p -> gettok p = (Some tok, saveptr) ->
  tok <> EmptyString /\ cstr tok = tok.
Proof.
  unfold gettok; intros Hp.
  destruct (span_token_cstr _ (skip_blanks_cstr _ Hp)) as [H1 _].
  destruct (span_token (skip_blanks p)) as [t r]; simpl in H1.
  destruct t; [discriminate|]; intros [= <- <-]; split; [discriminate|exact H1].
Qed.

Lemma line_tokens_name l tname wstr hstr unit :
  line_tokens l = (Some tname, wstr, hstr, unit) ->
  tname <> EmptyString /\ cstr tname = tname.
Proof.
  unfold line_tokens.
  destruct (gettok (cstr l)) as [t1 s1] eqn:E1.
  destruct (gettok s1) as [t2 s2]; destruct (gettok s2) as [t3 s3];
    destruct (gettok s3) as [t4 s4].
  intros [= -> _ _ _]; eapply gettok_token; [apply cstr_idem|exact E1].
Qed.

(** *** The callbacks *)

Lemma hash_string_from_lt v s n : v < n -> hash_string_from v s n < n.
Proof.
  revert v; induction s as [|c s IH]; intros v Hv; simpl; [exact Hv|].
  apply IH, Nat.mod_upper_bound; lia.
Qed.

Lemma paperhash_lt d n : 0 < n -> paperhash d n < n.
Proof. intros H; now apply hash_string_from_lt. Qed.

Lemma ptr_eq_addr x y : ptr_eq x y = Nat.eqb (addr x) (addr y).
Proof. reflexivity. Qed.

(** *** The invariant of the table *)

Lemma table_ok_mono k k' t : k <= k' -> table_ok k t -> table_ok k' t.
Proof.
  intros Hk (Hw & Hn & Hf); split; [exact Hw|split; [exact Hn|]].
  eapply Forall_impl; [|exact Hf]; simpl; intros d (Ha & Hb); split; [lia|auto].
Qed.

Lemma table_ok_initial c k : table_ok k (hash_initialize paper_ptr c).
Proof.
  split; [|split].
  - apply hash_initialize_well_formed.
  - rewrite hash_initialize_entries; constructor.
  - rewrite hash_initialize_entries; constructor.
Qed.

Lemma table_ok_perm k t t' :
  well_formed paperhash t' -> Permutation (entries t') (entries t) ->
  table_ok k t -> table_ok k t'.
Proof.
  intros Hw Hp (_ & Hn & Hf); split; [exact Hw|split].
  - eapply Permutation_NoDup; [|exact Hn].
    apply Permutation_map; symmetry; exact Hp.
  - eapply Permutation_Forall; [symmetry; exact Hp|exact Hf].
Qed.

(** One more record, at the address [k]. *)
Lemma table_ok_insert m k t p r t' :
  table_ok k t ->
  addr p = k -> 1 <= k ->
  name (pointee p) <> EmptyString -> cstr (name (pointee p)) = name (pointee p) ->
  hash_insert ptr_eq paperhash papereq m t p = (r, t') ->
  table_ok (S k) t' /\ incl (entries t) (entries t').
Proof.
  intros Hok Ha Hk Hne Hc Hi.
  destruct (hash_insert_spec _ _ _ _ paperhash_lt _ _ _ _ _ (proj1 Hok) Hi)
    as [Hw Hcase].
  destruct (hash_lookup _ _ _ t p) as [d|].
  - destruct Hcase as [_ ->]; split; [|apply incl_refl].
    eapply table_ok_mono; [|exact Hok]; lia.
  - destruct Hcase as [[_ Hp]|(_ & _ & Hp)].
    + destruct Hok as (_ & Hn & Hf); split; [split; [exact Hw|split]|].
      * eapply Permutation_NoDup;
          [apply Permutation_map; symmetry; exact Hp|].
        simpl; constructor; [|exact Hn].
        intros Hin; apply in_map_iff in Hin as (d & Hd & Hin).
        rewrite Forall_forall in Hf; apply Hf in Hin; lia.
      * eapply Permutation_Forall; [symmetry; exact Hp|].
        constructor; [repeat split; auto; lia|].
        eapply Forall_impl; [|exact Hf]; simpl; intros d (Hd & Hb); split; [lia|auto].
      * intros d Hd; eapply Permutation_in; [symmetry; exact Hp|now right].
    + split.
      * eapply table_ok_mono; [|eapply table_ok_perm; eauto]; lia.
      * intros d Hd; eapply Permutation_in; [symmetry; exact Hp|exact Hd].
Qed.

Lemma paperinit_line_ok m k t l out t' :
  table_ok k t -> 1 <= k ->
  paperinit_line m k t l = (out, t') ->
  table_ok (S k) t' /\ incl (entries t) (entries t').
Proof.
  intros Hok Hk; unfold paperinit_line.
  assert (Hsame : table_ok (S k) t /\ incl (entries t) (entries t))
    by (split; [eapply table_ok_mono; [|exact Hok]; lia|apply incl_refl]).
  destruct (line_tokens l) as [[[[tname|] [wstr|]] [hstr|]] unit] eqn:E;
    try (intros [= <- <-]; exact Hsame).
  destruct (line_tokens_name _ _ _ _ _ E) as [Hne Hc].
  destruct (strtod wstr) as [w e1]; destruct (strtod hstr) as [h e2].
  destruct (match unit with Some _ => _ | None => _ end) as [[ret w'] h'].
  destruct (malloc_ok m k); [|intros [= <- <-]; exact Hsame].
  destruct (hash_insert _ _ _ _ t _) as [r t1] eqn:Ei.
  assert (H1 : table_ok (S k) t1 /\ incl (entries t) (entries t1))
    by (eapply table_ok_insert; [exact Hok| |exact Hk| | |exact Ei];
        [reflexivity|exact Hne|exact Hc]).
  destruct r; intros [= <- <-]; exact H1.
Qed.

Lemma paperinit_loop_ok m ps k t out t' :
  table_ok k t -> 1 <= k ->
  paperinit_loop m ps k t = (out, t') ->
  (exists k', table_ok k' t') /\ incl (entries t) (entries t').
Proof.
  revert k t; induction ps as [|l ps IH]; intros k t Hok Hk; simpl.
  - intros [= <- <-]; split; [eauto|apply incl_refl].
  - destruct (has_token l); [|now apply IH].
    destruct (paperinit_line m k t l) as [o t1] eqn:El.
    destruct (paperinit_line_ok _ _ _ _ _ _ Hok Hk El) as [Hok1 Hin1].
    destruct o as [ret|]; [|intros [= <- <-]; split; eauto].
    destruct ret as [|q|q]; [|intros [= <- <-]; split; eauto..].
    intros Hl; destruct (IH (S k) t1 Hok1 ltac:(lia) Hl) as [Hex Hin].
    split; [exact Hex|eapply incl_tran; eauto].
Qed.

Lemma paperinit_ok cfg w : exists k, table_ok k (snd (paperinit cfg w)).
Proof.
  unfold paperinit.
  destruct (fopen w (PAPERSPECS cfg)) as [ps|].
  - destruct (paperinit_loop _ _ _ _) as [out t'] eqn:E.
    eapply paperinit_loop_ok in E as [H _]; [exact H| |lia].
    apply table_ok_initial.
  - exists 1; apply table_ok_initial.
Qed.


(** The loop on a stream whose first lines are read with [ret == 0]
    goes on with the lines that follow. *)
Lemma paperinit_loop_app m ps1 ps2 k t t1 :
  paperinit_loop m ps1 k t = (Returned 0, t1) ->
  paperinit_loop m (ps1 ++ ps2) k t =
  paperinit_loop m ps2 (k + List.length (filter has_token ps1)) t1.
Proof.
  revert k t; induction ps1 as [|l ps1 IH]; intros k t; simpl.
  - intros [= <-]; now rewrite Nat.add_0_r.
  - destruct (has_token l); [|now apply IH].
    destruct (paperinit_line m k t l) as [[[|q|q]|] t0]; try discriminate.
    intros Hl; simpl; rewrite Nat.add_succ_r; now apply IH.
Qed.

Lemma gettokline_getline fp :
  gettokline fp =
  match getline fp with
  | None => None
  | Some (l, fp') => if has_token l then Some (l, fp') else gettokline fp'
  end.
Proof. destruct fp; reflexivity. Qed.

(** The loop of [paperinit] is the loop of the source: [gettokline],
    then the body, then the loop again while [ret == 0]. *)
Lemma paperinit_loop_gettokline m ps k t :
  paperinit_loop m ps k t =
  match gettokline ps with
  | None => (Returned 0, t)
  | Some (l, ps') =>
      match paperinit_line m k t l with
      | (Returned 0%Z, t') => paperinit_loop m ps' (S k) t'
      | stop => stop
      end
  end.
Proof.
  induction ps as [|l ps IH]; simpl; [reflexivity|].
  destruct (has_token l); [reflexivity|exact IH].
Qed.

(** *** Lookup by name *)

Lemma find_agree {X} (f g : X -> bool) l :
  (forall x, In x l -> f x = g x) -> find f l = find g l.
Proof.
  induction l as [|x l IH]; intros H; simpl; [reflexivity|].
  rewrite <- (H x) by now left.
  destruct (f x); [reflexivity|apply IH; intros; apply H; now right].
Qed.

(** In a table of [paperinit] a lookup depends on the name only: the
    address of the key is not one of the table. *)
Lemma hash_lookup_by_name k t p :
  table_ok k t -> (addr p = 0 \/ k <= addr p) ->
  hash_lookup ptr_eq paperhash papereq t p =
  find (fun d => papereq p d)
       (nth_bucket (bucket t) (paperhash p (n_buckets t))).
Proof.
  intros (_ & _ & Hf) Hp; unfold hash_lookup, safe_hasher.
  apply find_agree; intros d Hd.
  apply In_nth_bucket in Hd.
  rewrite Forall_forall in Hf; destruct (Hf d Hd) as [Ha _].
  unfold ptr_eq; destruct (Nat.eqb_spec (addr p) (addr d)); [lia|reflexivity].
Qed.

Lemma paperinfo_sound k t paper d :
  table_ok k t -> paperinfo t paper = Some d ->
  In d (entries t) /\ strcasecmp paper (papername d) = 0%Z.
Proof.
  intros Hok H; unfold paperinfo in H.
  destruct (hash_lookup_sound _ _ _ _ _ _ _ H) as [Hin Hc]; split; [exact Hin|].
  destruct Hok as (_ & _ & Hf); rewrite Forall_forall in Hf.
  destruct (Hf d Hin) as [Ha _].
  unfold ptr_eq in Hc; cbn [addr] in Hc.
  destruct (Nat.eqb_spec 0 (addr d)) as [|_]; [lia|].
  cbn [orb] in Hc; unfold papereq in Hc; cbn [pointee name] in Hc.
  now apply Z.eqb_eq in Hc.
Qed.

(** A record of the table is found under its own name: [paperinfo]
    gives a record, whose name is that name up to case. *)
Lemma paperinfo_complete k t d :
  table_ok k t -> In d (entries t) -> paperinfo t (papername d) <> None.
Proof.
  intros Hok Hd; unfold paperinfo.
  eapply hash_lookup_complete; [exact (proj1 Hok)|exact Hd|reflexivity|].
  unfold papereq; simpl; unfold papername.
  now rewrite strcasecmp_refl.
Qed.

Lemma paperinfo_empty k t : table_ok k t -> paperinfo t EmptyString = None.
Proof.
  intros Hok; destruct (paperinfo t EmptyString) as [d|] eqn:E; [|reflexivity].
  destruct (paperinfo_sound _ _ _ _ Hok E) as [Hin Hc].
  destruct Hok as (_ & _ & Hf); rewrite Forall_forall in Hf.
  destruct (Hf d Hin) as (_ & Hne & Hcs).
  apply strcasecmp_empty in Hc; [contradiction|exact Hcs].
Qed.

(** *** The traversal of the table *)

Lemma scan_from_split found t fuel : forall bs1 c1 d c2 bs2,
  bucket t = bs1 ++ (c1 ++ d :: c2) :: bs2 ->
  in_place paperhash (bucket t) ->
  NoDup (map addr (entries t)) ->
  List.length (d :: c2 ++ List.concat bs2) <= fuel ->
  scan_from found fuel t (Some d) =
  Some (find found (d :: c2 ++ List.concat bs2)).
Proof.
  induction fuel as [|fuel IH]; intros bs1 c1 d c2 bs2 Hb Hp Hnd Hlen;
    [simpl in Hlen; lia|].
  cbn [scan_from find]; destruct (found d); [reflexivity|].
  unfold papernext.
  rewrite (hash_get_next_split _ _ _ _ ptr_eq_addr _ _ _ _ _ _ Hb Hp Hnd).
  destruct c2 as [|d' c2].
  - cbn [app]; destruct (List.concat bs2) as [|d' l] eqn:E.
    + simpl; destruct fuel; reflexivity.
    + destruct (concat_cons_split _ _ _ _ E) as (es & c & bs' & -> & He & ->).
      cbn [hd_error].
      apply (IH (bs1 ++ (c1 ++ [d]) :: es) [] d' c bs'); auto.
      * rewrite Hb, <- app_assoc; reflexivity.
      * simpl in Hlen |- *; lia.
  - cbn [app hd_error].
    apply (IH bs1 (c1 ++ [d]) d' c2 bs2); auto.
    + rewrite Hb, <- app_assoc; reflexivity.
    + simpl in Hlen |- *; lia.
Qed.

(** On a table of [paperinit] the loop over [paperfirst] and
    [papernext] ends, and finds the first record of the traversal that
    satisfies the test. *)
Lemma scan_find found k t :
  table_ok k t -> scan found t = Some (find found (entries t)).
Proof.
  intros ([_ Hp] & Hnd & _); unfold scan, paperfirst.
  rewrite hash_get_first_entries.
  change (n_entries t) with (List.length (entries t)).
  destruct (entries t) as [|d l] eqn:E; [reflexivity|].
  unfold entries in E.
  destruct (concat_cons_split _ _ _ _ E) as (es & c & bs' & Hb & He & ->).
  cbn [hd_error].
  apply (scan_from_split found t _ es [] d c bs'); auto.
  unfold entries; rewrite E; exact Hnd.
Qed.

(** *** The body of the loop of [paperinit] *)

Lemma paperinit_line_ret m k t l tname wstr hstr unit :
  line_tokens l = (Some tname, Some wstr, Some hstr, unit) ->
  malloc_ok m k = true -> hash_ok m k = true ->
  fst (paperinit_line m k t l) =
  Returned (if snd (strtod wstr) || snd (strtod hstr) || unknown_unit unit
            then 1 else 0).
Proof.
  intros E Hm Hh; unfold paperinit_line; rewrite E, Hm, Hh.
  destruct (strtod wstr) as [w e1]; destruct (strtod hstr) as [h e2]; simpl.
  set (r := match unit with Some _ => _ | None => _ end).
  assert (Hr : fst (fst r) =
               (if e1 || e2 || unknown_unit unit then 1 else 0)%Z).
  { unfold r, unknown_unit; destruct unit as [u|].
    - destruct (eqb (unitfactor u) zero); simpl;
        [now rewrite orb_true_r|rewrite orb_false_r].
      destruct e1, e2; reflexivity.
    - simpl; rewrite orb_false_r; destruct e1, e2; reflexivity. }
  destruct r as [[ret w'] h']; simpl in Hr; subst ret.
  pose proof (hash_insert_mem_ok _ ptr_eq paperhash papereq t
                {| addr := k;
                   pointee := {| name := tname; pswidth := w'; psheight := h' |} |})
    as Hins.
  destruct (hash_insert _ _ _ true t _) as [[d|] t1]; simpl in *;
    [reflexivity|congruence].
Qed.

End PaperFacts.

(** ** The specification, claim by claim *)

Import CLib Flt Strtod Hash Paper Samples HashFacts PaperFacts.

(** *** Lookup by name *)

(** C1.  After [paperinit] has succeeded, [paperinfo] called with any
    casing of a line's name should return the record of that line.  It
    does not: [papereq] compares names without regard to case, but
    [paperhash] hashes the bytes of the name as they are, so another
    casing is looked for in another bucket.  With the specification file
    "A4 595 842", [paperinfo "A4"] finds the record and [paperinfo "a4"]
    returns [NULL]. *)
Theorem paperinfo_misses_other_casing :
  let w := sys None ("A4 595 842" ++ nl) None plenty in
  let papers := snd (paperinit cfg w) in
  fst (paperinit cfg w) = Returned 0 /\
  option_map papername (paperinfo papers "A4") = Some "A4" /\
  strcasecmp "a4" "A4" = 0 /\
  (hash_string "A4" (n_buckets papers) = 81 /\
   hash_string "a4" (n_buckets papers) = 80)%nat /\
  paperinfo papers "a4" = None.
Proof. vm_compute; repeat split. Qed.

(** *** The resolvers *)

(** C2, as stated, fails: [defaultpapername] does not read the
    environment.  With [PAPERSIZE=Legal] and a locale of 210 by 297 mm it
    returns "A4". *)
Lemma defaultpapername_ignores_PAPERSIZE :
  let specs := "Letter 612 792" ++ nl ++ "Legal 612 1008" ++ nl
               ++ "A4 595 842" ++ nl in
  let w := sys (Some "Legal") specs None plenty in
  getenv w (PAPERSIZEVAR cfg) = Some "Legal" /\
  defaultpapername cfg w (snd (paperinit cfg w)) = Some "A4" /\
  defaultpapername cfg w (snd (paperinit cfg w)) <> Some "Legal".
Proof. vm_compute; repeat split; discriminate. Qed.

(** C2, amended.  When the paper-size variable is set, it is
    [systempapername] that takes its value as the name, whatever the
    configuration file and the locale data are: the value is returned as
    it is unless [paperinfo] finds a record for it, whose stored name is
    then returned.  [defaultpapername] does not read the variable: its
    result depends on the locale data and the catalogue only. *)
Theorem papersize_variable_wins cfg w papers value :
  getenv w (PAPERSIZEVAR cfg) = Some value ->
  systempapername cfg w papers =
    match paperinfo papers value with
    | Some pp => papername pp
    | None => value
    end /\
  forall w', nl_paper w' = nl_paper w ->
             defaultpapername cfg w' papers = defaultpapername cfg w papers.
Proof.
  intros Henv; split.
  - unfold systempapername, rawpapername; now rewrite Henv.
  - intros w' Hl; unfold defaultpapername; now rewrite Hl.
Qed.

Lemma papersize_variable_wins_witness :
  let specs := "Letter 612 792" ++ nl ++ "Legal 612 1008" ++ nl in
  let w := sys (Some "Legal") specs (Some ("a4" ++ nl)) plenty in
  systempapername cfg w (catalog specs) =
    match paperinfo (catalog specs) "Legal" with
    | Some pp => papername pp
    | None => "Legal"
    end /\
  forall w', nl_paper w' = nl_paper w ->
             defaultpapername cfg w' (catalog specs) =
             defaultpapername cfg w (catalog specs).
Proof.
  intros specs w.
  apply (papersize_variable_wins cfg w (catalog specs) "Legal").
  reflexivity.
Defined.

(** C5.  [systempapername] should return the catalogue's stored name when
    the name it has read matches a record up to case.  It does not, for
    the reason given at C1: [paperinfo] misses a record whose name is
    cased otherwise.  With the catalogue of "A4 595 842" and the name
    "a4", from the variable or from the configuration file, the result is
    "a4"; the name "A4" is found. *)
Theorem systempapername_keeps_other_casing :
  let specs := "A4 595 842" ++ nl in
  let by_env := sys (Some "a4") specs None plenty in
  let by_file := sys None specs (Some ("a4" ++ nl)) plenty in
  map papername (entries (catalog specs)) = ["A4"]%list /\
  strcasecmp "a4" "A4" = 0 /\
  systempapername cfg by_env (snd (paperinit cfg by_env)) = "a4" /\
  systempapername cfg by_file (snd (paperinit cfg by_file)) = "a4".
Proof. vm_compute; repeat split. Qed.

(** C9.  When the paper-size variable is set to the empty string,
    [systempapername] takes the empty string as the name, without looking
    at the configuration file or at the built-in default, and, no record
    of a catalogue of [paperinit] having an empty name, returns the empty
    string. *)
Theorem systempapername_empty_variable cfg w w0 :
  getenv w (PAPERSIZEVAR cfg) = Some EmptyString ->
  rawpapername cfg w = EmptyString /\
  paperinfo (snd (paperinit cfg w0)) EmptyString = None /\
  systempapername cfg w (snd (paperinit cfg w0)) = EmptyString.
Proof.
  intros Henv.
  assert (Hraw : rawpapername cfg w = EmptyString)
    by (unfold rawpapername; now rewrite Henv).
  destruct (paperinit_ok cfg w0) as [k Hok].
  pose proof (paperinfo_empty _ _ Hok) as Hnone.
  repeat split; auto.
  unfold systempapername; now rewrite Hraw, Hnone.
Qed.

Lemma systempapername_empty_variable_witness :
  let w := sys (Some EmptyString) ("A4 595 842" ++ nl) (Some ("A4" ++ nl)) plenty in
  rawpapername cfg w = EmptyString /\
  paperinfo (snd (paperinit cfg w)) EmptyString = None /\
  systempapername cfg w (snd (paperinit cfg w)) = EmptyString.
Proof.
  intros w; apply (systempapername_empty_variable cfg w w); reflexivity.
Defined.

(** *** Construction *)




(** C4.  A line with a unit should store the same dimensions as the line
    that gives them in points and has no unit.  It does not: the factors of
    the unit table convert to inches, and [paperinit] stores the product
    as it is, without the 72 points of an inch, in the fields that hold
    points for a line without unit and that [PT_TO_MM] reads as points.
    "Letter 8.5 11 in" is stored as 8.5 by 11, "Letter 612 792" as 612 by
    792; the width of "A4 210 297 mm" comes out of [PT_TO_MM] as 3 mm, that
    of "A4 595 842" as 210 mm. *)
Theorem unit_line_stored_in_inches :
  map pointee (entries (catalog ("Letter 8.5 11 in" ++ nl))) =
    [{| name := "Letter"; pswidth := dconst "8.5"; psheight := dconst "11" |}]%list /\
  map pointee (entries (catalog ("Letter 612 792" ++ nl))) =
    [{| name := "Letter"; pswidth := dconst "612"; psheight := dconst "792" |}]%list /\
  eqb (dmul (dconst "8.5") (dconst "72")) (dconst "612") = true /\
  eqb (dconst "8.5") (dconst "612") = false /\
  map (fun p => PT_TO_MM (paperpswidth p))
      (entries (catalog ("A4 210 297 mm" ++ nl))) = [3]%list /\
  map (fun p => PT_TO_MM (paperpswidth p))
      (entries (catalog ("A4 595 842" ++ nl))) = [210]%list.
Proof. vm_compute; repeat split. Qed.

(** C6.  A width or height that does not parse as a number should make
    the construction fail.  [paperinit] tests [errno] after [strtod],
    which tells of a range error only: for a token that is not a number
    [strtod] gives 0, or the value of the digits it starts with, and leaves
    [errno] alone.  The line "Letter abc 12abc" is accepted, as 0 by 12,
    and [paperinit] returns 0. *)
Theorem non_numeric_width_accepted :
  let w := sys None ("Letter abc 12abc" ++ nl) None plenty in
  strtod "abc" = (zero, false) /\
  strtod "12abc" = (dconst "12", false) /\
  fst (paperinit cfg w) = Returned 0 /\
  map pointee (entries (snd (paperinit cfg w))) =
    [{| name := "Letter"; pswidth := zero; psheight := dconst "12" |}]%list.
Proof. vm_compute; repeat split. Qed.

(** What the body of the loop returns on a line with its three tokens,
    with memory at hand: 1 exactly when [strtod] reports a range error
    for the width or the height, or when the unit is not recognized, and
    no further line is read then; otherwise the loop goes on. *)
Lemma range_error_stops_paperinit m k papers l ps tname wstr hstr unit :
  has_token l = true ->
  line_tokens l = (Some tname, Some wstr, Some hstr, unit) ->
  malloc_ok m k = true -> hash_ok m k = true ->
  fst (paperinit_loop m (l :: ps) k papers) =
    if snd (strtod wstr) || snd (strtod hstr) || unknown_unit unit
    then Returned 1
    else fst (paperinit_loop m ps (S k) (snd (paperinit_line m k papers l))).
Proof.
  intros Htok E Hm Hh; cbn [paperinit_loop]; rewrite Htok.
  pose proof (paperinit_line_ret m k papers l _ _ _ _ E Hm Hh) as Hret.
  destruct (paperinit_line m k papers l) as [o t1]; simpl in Hret; subst o.
  destruct (_ || _ || _); reflexivity.
Qed.

(** A line with fewer than three tokens ends the loop with 2, and leaves
    the table as it is. *)
Lemma short_line_stops_paperinit m k papers l ps tname wstr hstr unit :
  has_token l = true ->
  line_tokens l = (tname, wstr, hstr, unit) ->
  tname = None \/ wstr = None \/ hstr = None ->
  paperinit_loop m (l :: ps) k papers = (Returned 2, papers).
Proof.
  intros Htok E Hnone; cbn [paperinit_loop]; rewrite Htok.
  unfold paperinit_line; rewrite E.
  destruct tname, wstr, hstr; try reflexivity;
    destruct Hnone as [H|[H|H]]; discriminate.
Qed.

(** When the specification file cannot be opened [paperinit] returns -1
    and leaves the empty table. *)
Lemma unopened_file_stops_paperinit cfg w :
  fopen w (PAPERSPECS cfg) = None ->
  paperinit cfg w = (Returned (-1), hash_initialize paper_ptr 256).
Proof. intros H; unfold paperinit; now rewrite H. Qed.




(** *** Lookup by size *)

(** C8, as stated, fails when two records have the same size: of "Letter
    612 792" and "AnsiA 612 792", "Letter" comes first in the table, and
    it is the one returned for the size of "AnsiA". *)
Lemma paperwithsize_returns_other_name :
  let papers := catalog ("Letter 612 792" ++ nl ++ "AnsiA 612 792" ++ nl) in
  let r := {| addr := 2;
              pointee := {| name := "AnsiA"; pswidth := dconst "612";
                            psheight := dconst "792" |} |} in
  In r (entries papers) /\
  option_map (option_map papername)
             (paperwithsize papers (paperpswidth r) (paperpsheight r)) =
    Some (Some "Letter") /\
  papername r <> "Letter".
Proof.
  vm_compute; repeat split; [right; left; reflexivity|discriminate].
Qed.

(** C8, amended.  For every catalogue that [paperinit] leaves and every
    record in it whose width and height are numbers (equal to themselves,
    not NaN), [paperwithsize] applied to the width and height of the
    record ends and returns the first record, in the order of the
    traversal, that has this width and this height; its name may be
    another. *)
Theorem paperwithsize_own_size cfg w r :
  In r (entries (snd (paperinit cfg w))) ->
  eqb (paperpswidth r) (paperpswidth r) = true ->
  eqb (paperpsheight r) (paperpsheight r) = true ->
  exists r',
    paperwithsize (snd (paperinit cfg w)) (paperpswidth r) (paperpsheight r)
      = Some (Some r') /\
    find (fun pp => eqb (paperpswidth pp) (paperpswidth r)
                    && eqb (paperpsheight pp) (paperpsheight r))
         (entries (snd (paperinit cfg w))) = Some r' /\
    eqb (paperpswidth r') (paperpswidth r) = true /\
    eqb (paperpsheight r') (paperpsheight r) = true.
Proof.
  intros Hr Hw Hh.
  destruct (paperinit_ok cfg w) as [k Hok].
  unfold paperwithsize; rewrite (scan_find _ _ _ Hok).
  destruct (find _ (entries (snd (paperinit cfg w)))) as [r'|] eqn:E.
  - exists r'; repeat split; auto;
      apply find_some in E as [_ E]; apply andb_prop in E; tauto.
  - pose proof (find_none _ _ E r Hr) as Hn; simpl in Hn.
    rewrite Hw, Hh in Hn; discriminate.
Qed.

Lemma paperwithsize_own_size_witness :
  let w := sys None ("Letter 612 792" ++ nl ++ "AnsiA 612 792" ++ nl) None plenty in
  let r := {| addr := 2;
              pointee := {| name := "AnsiA"; pswidth := dconst "612";
                            psheight := dconst "792" |} |} in
  exists r',
    paperwithsize (snd (paperinit cfg w)) (paperpswidth r) (paperpsheight r)
      = Some (Some r') /\
    find (fun pp => eqb (paperpswidth pp) (paperpswidth r)
                    && eqb (paperpsheight pp) (paperpsheight r))
         (entries (snd (paperinit cfg w))) = Some r' /\
    eqb (paperpswidth r') (paperpswidth r) = true /\
    eqb (paperpsheight r') (paperpsheight r) = true.
Proof.
  intros w r; apply (paperwithsize_own_size cfg w r).
  - vm_compute; right; left; reflexivity.
  - reflexivity.
  - reflexivity.
Defined.

(** *** The value of [paperinit] *)

(** C10.  [paperinit] should return -1 when an allocation fails.  When
    [malloc] gives no record it sets [ret] to -1, but goes on to call
    [hash_insert] with the [NULL] pointer, which aborts the process
    ([paperhash] could not read the name of a [NULL] record either): no
    value is returned.  The other values are as said: 2 for a line with
    fewer than three tokens, 1 for a range error or an unknown unit, -1
    when [hash_insert] lacks memory (here for the overflow cell of "aE",
    which falls into the bucket of "a") or the file cannot be opened, 0
    otherwise. *)
Theorem paperinit_aborts_without_memory :
  fst (paperinit cfg (sys None ("A4 595 842" ++ nl) None exhausted)) = Aborted /\
  fst (paperinit cfg (sys None ("A4 595 842" ++ nl) None plenty)) = Returned 0 /\
  fst (paperinit cfg (sys None ("A4 595" ++ nl) None plenty)) = Returned 2 /\
  fst (paperinit cfg (sys None ("A4 1e999 842" ++ nl) None plenty)) = Returned 1 /\
  fst (paperinit cfg (sys None ("A4 595 842 ells" ++ nl) None plenty)) = Returned 1 /\
  fst (paperinit cfg (sys None ("a 1 1" ++ nl ++ "aE 2 2" ++ nl) None tight))
    = Returned (-1) /\
  fst (paperinit {| PAPERSPECS := "/nowhere"; PAPERCONF := "/etc/papersize";
                    PAPERSIZE := "letter"; PAPERSIZEVAR := "PAPERSIZE";
                    PAPERCONFVAR := "PAPERCONF"; LC_PAPER := false |}
                 (sys None EmptyString None plenty)) = Returned (-1).
Proof. vm_compute; repeat split. Qed.

(** ** More facts: strings and the tokenizer *)

Module TokenFacts.
Import CLib Flt Strtod Hash Paper Shape PaperFacts.

Lemma cstr_head c s : cstr (String c s) = String c s -> uchar c <> 0.
Proof.
  simpl; destruct (Z.eqb_spec (uchar c) 0); [discriminate|auto].
Qed.

Lemma tolower_zero c : tolower c = 0 -> uchar c = 0.
Proof.
  intros H; destruct (Z.eq_dec (uchar c) 0) as [|Hc]; [assumption|].
  now apply tolower_pos in Hc.
Qed.

(** For C strings [strcasecmp] gives 0 exactly when the lowered bytes are
    the same. *)
Lemma strcasecmp_lower a : forall b,
  cstr a = a -> cstr b = b -> (strcasecmp a b = 0 <-> lower a = lower b).
Proof.
  induction a as [|c1 a IH]; intros [|c2 b] Ha Hb; simpl.
  - tauto.
  - apply cstr_head in Hb; apply tolower_pos in Hb.
    split; [lia|discriminate].
  - apply cstr_head in Ha; apply tolower_pos in Ha.
    split; [lia|discriminate].
  - destruct (Z.eqb_spec (tolower c1) (tolower c2)) as [E|E].
    + rewrite (IH b (cstr_tail _ _ Ha) (cstr_tail _ _ Hb)), E.
      split; [congruence|intros [= H]; exact H].
    + split; [lia|intros [= H _]; contradiction].
Qed.

Lemma lower_length s : List.length (lower s) = String.length s.
Proof. induction s; simpl; congruence. Qed.

Lemma strcasecmp_sym a b :
  cstr a = a -> cstr b = b -> strcasecmp a b = 0 -> strcasecmp b a = 0.
Proof.
  intros Ha Hb H; apply strcasecmp_lower; auto.
  symmetry; now apply strcasecmp_lower.
Qed.

Lemma strcasecmp_trans a b c :
  cstr a = a -> cstr b = b -> cstr c = c ->
  strcasecmp a b = 0 -> strcasecmp b c = 0 -> strcasecmp a c = 0.
Proof.
  intros Ha Hb Hc H1 H2; apply strcasecmp_lower; auto.
  apply strcasecmp_lower in H1, H2; auto; congruence.
Qed.

(** What [strcasecmp] finds equal to a C string has, as a C string, the
    same length. *)
Lemma strcasecmp_length a : forall b,
  cstr b = b -> strcasecmp a b = 0 ->
  String.length (cstr a) = String.length b.
Proof.
  induction a as [|c1 a IH]; intros [|c2 b] Hb; simpl; auto.
  - apply cstr_head in Hb; apply tolower_pos in Hb; lia.
  - intros H; apply tolower_zero in H.
    now destruct (Z.eqb_spec (uchar c1) 0).
  - pose proof (cstr_head _ _ Hb) as H2; apply tolower_pos in H2.
    destruct (Z.eqb_spec (tolower c1) (tolower c2)) as [E|E]; [|lia].
    intros H; destruct (Z.eqb_spec (uchar c1) 0) as [H1|H1].
    + unfold tolower in E at 1; rewrite H1 in E; simpl in E; congruence.
    + simpl; f_equal; apply IH; [eapply cstr_tail; eauto|exact H].
Qed.

(** *** White space and tokens *)

Lemma all_space_cstr b : all_space b = true -> cstr b = b.
Proof.
  induction b as [|c b IH]; simpl; [reflexivity|].
  intros H; apply andb_prop in H as [Hc Hb].
  destruct (Z.eqb_spec (uchar c) 0) as [E|_].
  - unfold isspace in Hc; rewrite E in Hc; discriminate.
  - now rewrite IH.
Qed.

Lemma all_space_cstr_app b s : all_space b = true -> cstr (b ++ s) = b ++ cstr s.
Proof.
  induction b as [|c b IH]; simpl; [reflexivity|].
  intros H; apply andb_prop in H as [Hc Hb].
  destruct (Z.eqb_spec (uchar c) 0) as [E|_].
  - unfold isspace in Hc; rewrite E in Hc; discriminate.
  - now rewrite IH.
Qed.

Lemma no_space_cstr_app t s : no_space t = true -> cstr (t ++ s) = t ++ cstr s.
Proof.
  induction t as [|c t IH]; simpl; [reflexivity|].
  intros H; apply andb_prop in H as [H Ht]; apply andb_prop in H as [_ Hc].
  destruct (uchar c =? 0); [discriminate|now rewrite IH].
Qed.

Lemma skip_blanks_app b s :
  all_space b = true -> skip_blanks (b ++ s) = skip_blanks s.
Proof.
  induction b as [|c b IH]; simpl; [reflexivity|].
  intros H; apply andb_prop in H as [Hc Hb]; now rewrite Hc, IH.
Qed.

Lemma skip_blanks_split p :
  exists b, p = b ++ skip_blanks p /\ all_space b = true /\
            starts_with_space (skip_blanks p) = false.
Proof.
  induction p as [|c p (b & Hp & Hb & Hs)]; [exists EmptyString; auto|].
  cbn [skip_blanks]; destruct (isspace c) eqn:E.
  - exists (String c b); simpl; rewrite E, Hb; repeat split; auto.
    now rewrite <- Hp.
  - exists EmptyString; simpl; auto.
Qed.

Lemma span_token_app t s :
  no_space t = true -> starts_with_space s = true \/ s = EmptyString ->
  span_token (t ++ s) = (t, s).
Proof.
  induction t as [|c t IH]; simpl.
  - intros _ [H| ->]; [|reflexivity].
    destruct s as [|c s]; [discriminate|]; simpl in *; now rewrite H.
  - intros H Hs; apply andb_prop in H as [H Ht]; apply andb_prop in H as [Hc _].
    apply negb_true_iff in Hc; rewrite Hc, (IH Ht Hs); reflexivity.
Qed.

Lemma span_token_split p :
  cstr p = p ->
  p = fst (span_token p) ++ snd (span_token p) /\
  no_space (fst (span_token p)) = true /\
  (starts_with_space (snd (span_token p)) = true \/
   snd (span_token p) = EmptyString).
Proof.
  induction p as [|c p IH]; intros Hp; [simpl; auto|].
  cbn [span_token]; destruct (isspace c) eqn:E.
  - simpl; rewrite E; auto.
  - destruct (IH (cstr_tail _ _ Hp)) as (H1 & H2 & H3).
    destruct (span_token p) as [t r]; simpl in *.
    rewrite E, H2; simpl.
    pose proof (cstr_head _ _ Hp) as Hc; apply Z.eqb_neq in Hc; rewrite Hc.
    repeat split; auto; congruence.
Qed.

(** [gettok] finds a token that stands between white space and white
    space or the end. *)
Lemma gettok_app b t s :
  all_space b = true -> token t = true ->
  starts_with_space s = true \/ s = EmptyString ->
  gettok (b ++ t ++ s) = (Some t, s).
Proof.
  intros Hb Ht Hs; unfold gettok; rewrite (skip_blanks_app _ _ Hb).
  assert (Hn : no_space t = true) by (destruct t; [discriminate|exact Ht]).
  assert (Hsk : skip_blanks (t ++ s) = t ++ s).
  { destruct t as [|c t]; [discriminate|]; simpl in *.
    apply andb_prop in Hn as [H _]; apply andb_prop in H as [H _].
    apply negb_true_iff in H; now rewrite H. }
  rewrite Hsk, (span_token_app _ _ Hn Hs).
  destruct t; [discriminate|reflexivity].
Qed.

(** What [gettok] returns is a token, between white space and white
    space or the end. *)
Lemma gettok_some p tok rest :
  cstr p = p -> gettok p = (Some tok, rest) ->
  exists b, p = b ++ tok ++ rest /\ all_space b = true /\ token tok = true /\
            (starts_with_space rest = true \/ rest = EmptyString).
Proof.
  intros Hp; unfold gettok.
  destruct (skip_blanks_split p) as (b & Hb & Hsp & _).
  destruct (span_token_split _ (skip_blanks_cstr _ Hp)) as (H1 & H2 & H3).
  destruct (span_token (skip_blanks p)) as [t r]; simpl in *.
  destruct t as [|c t]; [discriminate|].
  intros [= <- <-]; exists b; repeat split; auto.
  now rewrite <- H1.
Qed.

Lemma append_empty s : s ++ EmptyString = s.
Proof. induction s; simpl; congruence. Qed.

Lemma gettok_all_space b : all_space b = true -> gettok b = (None, EmptyString).
Proof.
  intros Hb; unfold gettok.
  rewrite <- (append_empty b), (skip_blanks_app _ _ Hb); reflexivity.
Qed.

End TokenFacts.

(** ** Further properties of [paper.c] *)

Import Shape TokenFacts.

(** *** The unit table *)

(** X1.  [unitfactor] does not look at the case of the unit: two C
    strings that [strcasecmp] finds equal get the same factor. *)
Theorem unitfactor_ignores_case u u' :
  cstr u = u -> cstr u' = u' -> strcasecmp u u' = 0 ->
  unitfactor u = unitfactor u'.
Proof.
  intros Hu Hu' H; unfold unitfactor.
  assert (Hnames : Forall (fun nf => cstr (fst nf) = fst nf) units)
    by (repeat constructor).
  induction units as [|[n f] us IH]; [reflexivity|]; simpl.
  inversion Hnames as [|? ? Hn Hus]; subst; simpl in Hn.
  rewrite (IH Hus).
  destruct (Z.eqb_spec (strcasecmp n u) 0) as [E|E];
    destruct (Z.eqb_spec (strcasecmp n u') 0) as [E'|E']; auto; exfalso.
  - apply E'; exact (strcasecmp_trans n u u' Hn Hu Hu' E H).
  - apply E; refine (strcasecmp_trans n u' u Hn Hu' Hu E' _).
    now apply strcasecmp_sym.
Qed.

Lemma unitfactor_ignores_case_witness : unitfactor "Mm" = unitfactor "mm".
Proof. apply (unitfactor_ignores_case "Mm" "mm"); reflexivity. Defined.

(** X2.  [unitfactor] returns 0 exactly for the strings that
    [strcasecmp] finds equal to none of the seven names of the table;
    every other factor is greater than 0, so that 0 tells an unknown
    unit apart. *)
Theorem unitfactor_zero_iff_unknown u :
  (eqb (unitfactor u) zero = true <->
   Forall (fun n => strcasecmp n u <> 0) (map fst units)) /\
  (eqb (unitfactor u) zero = true \/ SFltb zero (unitfactor u) = true).
Proof.
  unfold unitfactor.
  assert (Hpos : Forall (fun nf => eqb (snd nf) zero = false /\
                                   SFltb zero (snd nf) = true) units)
    by (repeat constructor).
  induction units as [|[n f] us IH]; simpl.
  - split; [split; [constructor|reflexivity]|left; reflexivity].
  - inversion Hpos as [|? ? [Hf1 Hf2] Hus]; subst; simpl in *.
    destruct (IH Hus) as [IH1 IH2].
    destruct (Z.eqb_spec (strcasecmp n u) 0) as [E|E].
    + split; [|right; exact Hf2].
      rewrite Hf1; split; [discriminate|].
      intros H; inversion H; contradiction.
    + split; [|exact IH2].
      rewrite IH1; split; [now constructor|].
      intros H; now inversion H.
Qed.

(** *** The tokenizer *)

(** X3.  On a C string [gettok] returns the token [tok] and leaves
    [*saveptr] at [rest] exactly when the string is white space, then
    [tok], then [rest], where [tok] is not empty and has no white space in
    it, and [rest] is empty or begins with white space. *)
Theorem gettok_token_iff p tok rest :
  cstr p = p ->
  (gettok p = (Some tok, rest) <->
   exists b, p = b ++ tok ++ rest /\ all_space b = true /\ token tok = true /\
             (starts_with_space rest = true \/ rest = EmptyString)).
Proof.
  intros Hp; split.
  - now apply gettok_some.
  - intros (b & -> & Hb & Ht & Hr); now apply gettok_app.
Qed.

Lemma gettok_token_iff_witness :
  gettok "  A4 595" = (Some "A4", " 595") <->
  exists b, "  A4 595" = b ++ "A4" ++ " 595" /\ all_space b = true /\
            token "A4" = true /\
            (starts_with_space " 595" = true \/ " 595" = EmptyString).
Proof. apply (gettok_token_iff "  A4 595" "A4" " 595"); reflexivity. Defined.

(** X4.  On a C string [gettok] returns [NULL] exactly when the string
    is empty or white space only. *)
Theorem gettok_none_iff_blank p :
  cstr p = p -> (fst (gettok p) = None <-> all_space p = true).
Proof.
  intros Hp; split.
  - unfold gettok.
    destruct (skip_blanks_split p) as (b & Hb & Hsp & Hst).
    destruct (span_token_split _ (skip_blanks_cstr _ Hp)) as (H1 & _ & H3).
    destruct (span_token (skip_blanks p)) as [t r]; simpl in *.
    destruct t as [|c t]; [|discriminate]; intros _.
    simpl in H1; rewrite <- H1 in H3.
    destruct H3 as [H3|H3]; [congruence|].
    rewrite Hb, H3, append_empty; exact Hsp.
  - intros H; now rewrite (gettok_all_space _ H).
Qed.

Lemma gettok_none_iff_blank_witness :
  let p := String " " (String "009" EmptyString) in
  fst (gettok p) = None <-> all_space p = true.
Proof. intros p; apply (gettok_none_iff_blank p); reflexivity. Defined.

Lemma starts_with_space_app s x :
  starts_with_space s = true -> starts_with_space (s ++ x) = true.
Proof. destruct s; [discriminate|auto]. Qed.

(** X5.  A line made of a name, a width and a height, with white space
    between them, before the name and up to the end of the line, is read
    back by the calls of [gettok] in [paperinit] as these three tokens and
    no unit. *)
Theorem line_tokens_three b0 t1 s1 t2 s2 t3 tail :
  token t1 = true -> token t2 = true -> token t3 = true ->
  all_space b0 = true ->
  all_space s1 = true -> starts_with_space s1 = true ->
  all_space s2 = true -> starts_with_space s2 = true ->
  all_space tail = true ->
  line_tokens (b0 ++ t1 ++ s1 ++ t2 ++ s2 ++ t3 ++ tail) =
  (Some t1, Some t2, Some t3, None).
Proof.
  intros H1 H2 H3 Hb0 Hs1 Hs1' Hs2 Hs2' Htail.
  assert (N1 : no_space t1 = true) by (destruct t1; [discriminate|exact H1]).
  assert (N2 : no_space t2 = true) by (destruct t2; [discriminate|exact H2]).
  assert (N3 : no_space t3 = true) by (destruct t3; [discriminate|exact H3]).
  unfold line_tokens.
  rewrite (all_space_cstr_app _ _ Hb0), (no_space_cstr_app _ _ N1),
    (all_space_cstr_app _ _ Hs1), (no_space_cstr_app _ _ N2),
    (all_space_cstr_app _ _ Hs2), (no_space_cstr_app _ _ N3),
    (all_space_cstr _ Htail).
  rewrite (gettok_app b0 t1) by (auto using starts_with_space_app).
  rewrite (gettok_app s1 t2) by (auto using starts_with_space_app).
  assert (Ht : starts_with_space tail = true \/ tail = EmptyString).
  { destruct tail as [|c tail]; [right; reflexivity|left].
    simpl in Htail |- *; now apply andb_prop in Htail as [-> _]. }
  rewrite (gettok_app s2 t3 tail Hs2 H3 Ht).
  now rewrite (gettok_all_space _ Htail).
Qed.

Lemma line_tokens_three_witness :
  line_tokens ("" ++ "A4" ++ " " ++ "595" ++ "  " ++ "842" ++ nl) =
  (Some "A4", Some "595", Some "842", None).
Proof.
  apply (line_tokens_three "" "A4" " " "595" "  " "842" nl); reflexivity.
Defined.

(** X6.  When a fourth token follows, it is the unit, and what comes
    after it on the line, whatever it is, is not read. *)
Theorem line_tokens_four b0 t1 s1 t2 s2 t3 s3 t4 rest :
  token t1 = true -> token t2 = true -> token t3 = true -> token t4 = true ->
  all_space b0 = true ->
  all_space s1 = true -> starts_with_space s1 = true ->
  all_space s2 = true -> starts_with_space s2 = true ->
  all_space s3 = true -> starts_with_space s3 = true ->
  starts_with_space rest = true \/ rest = EmptyString ->
  line_tokens (b0 ++ t1 ++ s1 ++ t2 ++ s2 ++ t3 ++ s3 ++ t4 ++ rest) =
  (Some t1, Some t2, Some t3, Some t4).
Proof.
  intros H1 H2 H3 H4 Hb0 Hs1 Hs1' Hs2 Hs2' Hs3 Hs3' Hrest.
  assert (N1 : no_space t1 = true) by (destruct t1; [discriminate|exact H1]).
  assert (N2 : no_space t2 = true) by (destruct t2; [discriminate|exact H2]).
  assert (N3 : no_space t3 = true) by (destruct t3; [discriminate|exact H3]).
  assert (N4 : no_space t4 = true) by (destruct t4; [discriminate|exact H4]).
  assert (Hrest' : starts_with_space (cstr rest) = true \/ cstr rest = EmptyString).
  { destruct Hrest as [H| ->]; [left|right; reflexivity].
    destruct rest as [|c rest]; [discriminate|]; simpl in *.
    destruct (Z.eqb_spec (uchar c) 0) as [E|_]; [|exact H].
    unfold isspace in H; rewrite E in H; discriminate. }
  unfold line_tokens.
  rewrite (all_space_cstr_app _ _ Hb0), (no_space_cstr_app _ _ N1),
    (all_space_cstr_app _ _ Hs1), (no_space_cstr_app _ _ N2),
    (all_space_cstr_app _ _ Hs2), (no_space_cstr_app _ _ N3),
    (all_space_cstr_app _ _ Hs3), (no_space_cstr_app _ _ N4).
  rewrite (gettok_app b0 t1) by (auto using starts_with_space_app).
  rewrite (gettok_app s1 t2) by (auto using starts_with_space_app).
  rewrite (gettok_app s2 t3) by (auto using starts_with_space_app).
  rewrite (gettok_app s3 t4) by auto.
  reflexivity.
Qed.

Lemma line_tokens_four_witness :
  line_tokens ("" ++ "Letter" ++ " " ++ "8.5" ++ " " ++ "11" ++ " " ++ "in"
               ++ " # US letter") =
  (Some "Letter", Some "8.5", Some "11", Some "in").
Proof.
  apply (line_tokens_four "" "Letter" " " "8.5" " " "11" " " "in" " # US letter");
    try reflexivity.
  left; reflexivity.
Defined.

(** X7.  [gettokline] returns the first line of the stream that has a
    token, and leaves the stream after it: the lines before it have
    none.  It returns [NULL] exactly when no line of the stream has one. *)
Theorem gettokline_first_content_line fp :
  match gettokline fp with
  | Some (l, fp') =>
      exists skipped, fp = (skipped ++ l :: fp')%list /\
                      Forall (fun x => has_token x = false) skipped /\
                      has_token l = true
  | None => Forall (fun x => has_token x = false) fp
  end.
Proof.
  induction fp as [|l fp IH]; simpl; [constructor|].
  destruct (has_token l) eqn:E.
  - exists []%list; repeat split; auto.
  - destruct (gettokline fp) as [[l' fp']|].
    + destruct IH as (sk & -> & Hsk & Hl).
      exists (l :: sk)%list; repeat split; auto.
    + now constructor.
Qed.

(** X8.  A line has no token, and is skipped, exactly when as a C string
    it is white space only (or empty), or its first byte that is not
    white space is a hash. *)
Theorem has_token_false_iff l :
  has_token l = false <->
  all_space (cstr l) = true \/
  exists b r, cstr l = b ++ String "#" r /\ all_space b = true.
Proof.
  unfold has_token.
  destruct (skip_blanks_split (cstr l)) as (b & Hb & Hsp & Hst).
  destruct (skip_blanks (cstr l)) as [|c r] eqn:E; split.
  - intros _; left; rewrite Hb, append_empty; exact Hsp.
  - reflexivity.
  - intros H; apply negb_false_iff, Ascii.eqb_eq in H; subst c.
    right; exists b, r; auto.
  - intros [H|(b' & r' & H & Hb')].
    + rewrite <- (append_empty (cstr l)), (skip_blanks_app _ _ H) in E.
      discriminate.
    + rewrite H, (skip_blanks_app _ _ Hb') in E; simpl in E.
      injection E as <- <-; reflexivity.
Qed.

(** *** More facts about the loop of [paperinit] *)

Module LoopFacts.
Import CLib Flt Strtod Hash Paper Shape HashFacts PaperFacts TokenFacts.
Local Open Scope nat_scope.
Local Open Scope list_scope.

(** The body of the loop, by what the line is and what the memory
    gives. *)
Lemma paperinit_line_short m k t l :
  line_paper l = None -> paperinit_line m k t l = (Returned 2, t).
Proof.
  unfold line_paper, paperinit_line.
  destruct (line_tokens l) as [[[[n|] [ws|]] [hs|]] u]; try reflexivity.
  discriminate.
Qed.


Lemma line_code_full l p :
  line_paper l = Some p -> line_code l = 0%Z \/ line_code l = 1%Z.
Proof.
  unfold line_paper, line_code.
  destruct (line_tokens l) as [[[[n|] [ws|]] [hs|]] u]; try discriminate.
  intros _; destruct (_ || _ || _); auto.
Qed.

Lemma paperinit_line_no_malloc m k t l p :
  line_paper l = Some p -> malloc_ok m k = false ->
  paperinit_line m k t l = (Aborted, t).
Proof.
  unfold line_paper, paperinit_line.
  destruct (line_tokens l) as [[[[n|] [ws|]] [hs|]] u]; try discriminate.
  intros _ Hm; rewrite Hm.
  destruct (strtod ws), (strtod hs).
  now destruct (match u with Some _ => _ | None => _ end) as [[? ?] ?].
Qed.

Lemma paperinit_line_insert m k t l p :
  line_paper l = Some p -> malloc_ok m k = true ->
  paperinit_line m k t l =
  match hash_insert ptr_eq paperhash papereq (hash_ok m k) t
                    {| addr := k; pointee := p |} with
  | (None, t') => (Returned (-1), t')
  | (Some _, t') => (Returned (line_code l), t')
  end.
Proof.
  unfold line_paper, paperinit_line, line_code.
  destruct (line_tokens l) as [[[[n|] [ws|]] [hs|]] u]; try discriminate.
  intros [= <-] Hm; rewrite Hm.
  destruct (strtod ws) as [w e1], (strtod hs) as [h e2]; simpl.
  destruct u as [u|]; simpl.
  - destruct (eqb (unitfactor u) zero); simpl.
    + now rewrite orb_true_r.
    + rewrite orb_false_r; now destruct e1, e2.
  - rewrite orb_false_r; now destruct e1, e2.
Qed.

(** What a line does to the entries of the table. *)
Lemma paperinit_line_entries m k t l out t1 :
  table_ok k t ->
  paperinit_line m k t l = (out, t1) ->
  Permutation (entries t1) (entries t) \/
  exists p, line_paper l = Some p /\ out = Returned (line_code l) /\
            hash_lookup ptr_eq paperhash papereq t {| addr := k; pointee := p |}
              = None /\
            Permutation (entries t1) ({| addr := k; pointee := p |} :: entries t).
Proof.
  intros Hok; destruct (line_paper l) as [p|] eqn:Ep.
  - destruct (malloc_ok m k) eqn:Em.
    + rewrite (paperinit_line_insert _ _ _ _ _ Ep Em).
      destruct (hash_insert _ _ _ _ t _) as [r t'] eqn:Ei.
      destruct (hash_insert_spec _ _ _ _ paperhash_lt _ _ _ _ _ (proj1 Hok) Ei)
        as [_ Hcase].
      destruct (hash_lookup _ _ _ t _) as [d|] eqn:El.
      * destruct Hcase as [-> ->]; intros [= <- <-]; left; apply Permutation_refl.
      * destruct Hcase as [[-> Hp]|(-> & _ & Hp)]; intros [= <- <-].
        -- right; exists p; auto.
        -- left; exact Hp.
    + rewrite (paperinit_line_no_malloc _ _ _ _ _ Ep Em).
      intros [= <- <-]; left; apply Permutation_refl.
  - rewrite (paperinit_line_short _ _ _ _ Ep).
    intros [= <- <-]; left; apply Permutation_refl.
Qed.

(** The value of the body is 0, 1, 2 or -1, when it has one. *)
Lemma paperinit_line_values m k t l r :
  fst (paperinit_line m k t l) = Returned r ->
  r = 0%Z \/ r = 1%Z \/ r = 2%Z \/ r = (-1)%Z.
Proof.
  destruct (line_paper l) as [p|] eqn:Ep.
  - destruct (malloc_ok m k) eqn:Em.
    + rewrite (paperinit_line_insert _ _ _ _ _ Ep Em).
      destruct (hash_insert _ _ _ _ t _) as [[d|] t']; simpl; intros [= <-]; auto.
      destruct (line_code_full _ _ Ep) as [-> | ->]; auto.
    + rewrite (paperinit_line_no_malloc _ _ _ _ _ Ep Em); discriminate.
  - rewrite (paperinit_line_short _ _ _ _ Ep); simpl; intros [= <-]; auto.
Qed.

Lemma paperinit_loop_values m ps : forall k t r,
  fst (paperinit_loop m ps k t) = Returned r ->
  r = 0%Z \/ r = 1%Z \/ r = 2%Z \/ r = (-1)%Z.
Proof.
  induction ps as [|l ps IH]; intros k t r; simpl.
  - intros [= <-]; auto.
  - destruct (has_token l); [|apply IH].
    pose proof (paperinit_line_values m k t l) as Hl.
    destruct (paperinit_line m k t l) as [[[|q|q]|] t1]; simpl in *;
      try (intros [= <-]; now apply Hl); try discriminate.
    apply IH.
Qed.



Lemma paperinit_loop_filter m ps : forall k t,
  paperinit_loop m ps k t = paperinit_loop m (filter has_token ps) k t.
Proof.
  induction ps as [|l ps IH]; intros k t; simpl; [reflexivity|].
  destruct (has_token l) eqn:E; [|apply IH].
  simpl; rewrite E.
  destruct (paperinit_line m k t l) as [[[|q|q]|] t1]; auto.
Qed.

Lemma paperinit_loop_stopped m ps ps' : forall k t,
  fst (paperinit_loop m ps k t) <> Returned 0 ->
  paperinit_loop m (ps ++ ps') k t = paperinit_loop m ps k t.
Proof.
  induction ps as [|l ps IH]; intros k t; simpl; [congruence|].
  destruct (has_token l); [|apply IH].
  destruct (paperinit_line m k t l) as [[[|q|q]|] t1]; auto.
Qed.

Lemma paperinit_loop_blank m ps k t :
  Forall (fun l => has_token l = false) ps ->
  paperinit_loop m ps k t = (Returned 0, t).
Proof.
  induction 1 as [|l ps Hl _ IH]; simpl; [reflexivity|now rewrite Hl].
Qed.

(** Every entry of the table after the loop was there before, or is the
    record of a line of the stream; there are no more new entries than
    such lines. *)
Lemma paperinit_loop_entries m ps : forall k t out t',
  table_ok k t -> 1 <= k ->
  paperinit_loop m ps k t = (out, t') ->
  (forall d, In d (entries t') ->
             In d (entries t) \/ In (pointee d) (line_papers ps)) /\
  List.length (entries t') <=
  List.length (entries t) + List.length (line_papers ps).
Proof.
  induction ps as [|l ps IH]; intros k t out t' Hok Hk; simpl.
  - intros [= <- <-]; split; [auto|lia].
  - destruct (has_token l); [|now apply IH].
    destruct (paperinit_line m k t l) as [o t1] eqn:El.
    destruct (paperinit_line_ok _ _ _ _ _ _ Hok Hk El) as [Hok1 _].
    assert (Hstep : (forall d, In d (entries t1) ->
                       In d (entries t) \/
                       In (pointee d) (match line_paper l with
                                       | Some p => [p]
                                       | None => []
                                       end)) /\
                    List.length (entries t1) <=
                    List.length (entries t) +
                    List.length (match line_paper l with
                                 | Some p => [p]
                                 | None => []
                                 end)).
    { destruct (paperinit_line_entries _ _ _ _ _ _ Hok El)
        as [Hp|(p & Ep & _ & _ & Hp)].
      - split; [intros d Hd; left; eapply Permutation_in; eauto|].
        rewrite (Permutation_length Hp); lia.
      - rewrite Ep; split.
        + intros d Hd; apply (Permutation_in _ Hp) in Hd as [<-|Hd];
            [right; now left|now left].
        + rewrite (Permutation_length Hp); simpl; lia. }
    destruct Hstep as [Hin Hlen].
    assert (Hfinal : forall t2,
               ((forall d, In d (entries t2) ->
                           In d (entries t1) \/ In (pointee d) (line_papers ps)) /\
                List.length (entries t2) <=
                List.length (entries t1) + List.length (line_papers ps)) ->
               (forall d, In d (entries t2) ->
                          In d (entries t) \/
                          In (pointee d)
                             (match line_paper l with
                              | Some p => p :: line_papers ps
                              | None => line_papers ps
                              end)) /\
               List.length (entries t2) <=
               List.length (entries t) +
               List.length (match line_paper l with
                            | Some p => p :: line_papers ps
                            | None => line_papers ps
                            end)).
    { intros t2 [H1 H2]; split.
      - intros d Hd; destruct (H1 d Hd) as [Hd1|Hd1].
        + destruct (Hin d Hd1) as [?|Hd2]; [now left|right].
          destruct (line_paper l); [|destruct Hd2].
          destruct Hd2 as [<-|[]]; now left.
        + right; destruct (line_paper l); [now right|exact Hd1].
      - destruct (line_paper l); simpl in *; lia. }
    assert (Hstop : out = o -> t' = t1 ->
               (forall d, In d (entries t') ->
                          In d (entries t) \/
                          In (pointee d)
                             (match line_paper l with
                              | Some p => p :: line_papers ps
                              | None => line_papers ps
                              end)) /\
               List.length (entries t') <=
               List.length (entries t) +
               List.length (match line_paper l with
                            | Some p => p :: line_papers ps
                            | None => line_papers ps
                            end)).
    { intros _ ->; apply Hfinal; split; [auto|lia]. }
    destruct o as [[|q|q]|]; try (intros [= <- <-]; now apply Hstop).
    intros Hl; apply Hfinal; eapply IH; eauto.
Qed.

(** *** Tables without two names equal up to case *)

Lemma NoDup_map_inj {X Y} (f : X -> Y) l x y :
  NoDup (map f l) -> In x l -> In y l -> f x = f y -> x = y.
Proof.
  induction l as [|a l IH]; simpl; [contradiction|].
  intros Hnd; inversion Hnd as [|? ? Ha Hl]; subst.
  intros [<-|Hx] [<-|Hy] E; auto.
  - exfalso; apply Ha; rewrite E; now apply in_map.
  - exfalso; apply Ha; rewrite <- E; now apply in_map.
Qed.

(** A record is found under its own name, and it is the one found, when
    no two names of the table are equal up to case. *)
Lemma paperinfo_exact k t d :
  table_ok k t ->
  NoDup (map (fun e => lname (pointee e)) (entries t)) ->
  In d (entries t) -> paperinfo t (papername d) = Some d.
Proof.
  intros Hok Hnd Hd.
  destruct (paperinfo t (papername d)) as [d'|] eqn:E;
    [|now apply (paperinfo_complete _ _ _ Hok) in Hd].
  destruct (paperinfo_sound _ _ _ _ Hok E) as [Hd' Hc].
  destruct Hok as (_ & _ & Hf); rewrite Forall_forall in Hf.
  destruct (Hf d Hd) as (_ & _ & Hcs); destruct (Hf d' Hd') as (_ & _ & Hcs').
  apply strcasecmp_lower in Hc; auto.
  f_equal; symmetry; eapply NoDup_map_inj; eauto.
Qed.

Lemma paperinit_loop_distinct m ps : forall k t t',
  table_ok k t -> 1 <= k ->
  NoDup (map lname (map pointee (entries t) ++ line_papers ps)) ->
  paperinit_loop m ps k t = (Returned 0, t') ->
  Permutation (map pointee (entries t'))
              (map pointee (entries t) ++ line_papers ps).
Proof.
  induction ps as [|l ps IH]; intros k t t' Hok Hk Hnd; simpl.
  - intros [= <-]; rewrite app_nil_r; apply Permutation_refl.
  - simpl in Hnd; destruct (has_token l); [|now apply IH].
    destruct (paperinit_line m k t l) as [o t1] eqn:El.
    destruct (paperinit_line_ok _ _ _ _ _ _ Hok Hk El) as [Hok1 _].
    destruct o as [[|q|q]|]; try discriminate.
    intros Hl.
    destruct (line_paper l) as [p|] eqn:Ep;
      [|rewrite (paperinit_line_short _ _ _ _ Ep) in El; discriminate].
    destruct (malloc_ok m k) eqn:Em;
      [|rewrite (paperinit_line_no_malloc _ _ _ _ _ Ep Em) in El; discriminate].
    rewrite (paperinit_line_insert _ _ _ _ _ Ep Em) in El.
    destruct (hash_insert _ _ _ _ t _) as [r t0] eqn:Ei.
    destruct (hash_insert_spec _ _ _ _ paperhash_lt _ _ _ _ _ (proj1 Hok) Ei)
      as [_ Hcase].
    destruct r as [r|]; [|discriminate]; injection El as _ ->.
    destruct (hash_lookup _ _ _ t _) as [d|] eqn:Elook.
    + exfalso.
      assert (Hkk : addr {| addr := k; pointee := p |} = 0 \/
                    k <= addr {| addr := k; pointee := p |})
        by (right; simpl; lia).
      rewrite (hash_lookup_by_name k t _ Hok Hkk) in Elook.
      apply find_some in Elook as [Hd Hc].
      apply In_nth_bucket in Hd.
      unfold papereq in Hc; simpl in Hc; apply Z.eqb_eq in Hc.
      destruct Hok as (_ & _ & Hf); rewrite Forall_forall in Hf.
      destruct (Hf d Hd) as (_ & _ & Hcs).
      assert (Hp : cstr (name p) = name p).
      { unfold line_paper in Ep.
        destruct (line_tokens l) as [[[[n|] [ws|]] [hs|]] u] eqn:Et;
          try discriminate.
        injection Ep as <-; simpl; eapply line_tokens_name; eauto. }
      apply strcasecmp_lower in Hc; auto.
      rewrite map_app in Hnd; simpl in Hnd.
      apply NoDup_remove_2 in Hnd; apply Hnd, in_or_app; left.
      unfold lname at 1; rewrite Hc.
      rewrite map_map; apply (in_map (fun e => lower (name (pointee e)))), Hd.
    + destruct Hcase as [[_ Hp]|[? _]]; [|discriminate].
      assert (Hpm : Permutation (map pointee (entries t1) ++ line_papers ps)
                                (map pointee (entries t) ++ p :: line_papers ps)).
      { etransitivity;
          [apply Permutation_app_tail, Permutation_map; exact Hp|].
        simpl; apply Permutation_middle. }
      etransitivity; [|exact Hpm].
      apply (IH (S k) t1 t' Hok1 ltac:(lia)); [|exact Hl].
      eapply Permutation_NoDup; [|exact Hnd].
      apply Permutation_map; symmetry; exact Hpm.
Qed.

End LoopFacts.

(** *** Construction *)

Import LoopFacts.


(** X9.  When [paperinit] returns, it returns 0, 1, 2 or -1. *)
Theorem paperinit_return_values cfg w r :
  fst (paperinit cfg w) = Returned r -> r = 0 \/ r = 1 \/ r = 2 \/ r = -1.
Proof.
  unfold paperinit; destruct (fopen w (PAPERSPECS cfg)) as [ps|].
  - apply paperinit_loop_values.
  - simpl; intros [= <-]; auto.
Qed.

Lemma paperinit_return_values_witness : 2 = 0 \/ 2 = 1 \/ 2 = 2 \/ 2 = -1.
Proof.
  apply (paperinit_return_values cfg (sys None ("A4 595" ++ nl) None plenty) 2).
  reflexivity.
Defined.



(** X11.  Blank lines and comment lines count for nothing: two
    specification files with the same lines with tokens, read with the
    same memory, give the same value and the same table. *)
Theorem paperinit_skips_blank_lines cfg w w' specs specs' :
  fopen w (PAPERSPECS cfg) = Some specs ->
  fopen w' (PAPERSPECS cfg) = Some specs' ->
  mem w' = mem w ->
  filter has_token (getlines specs') = filter has_token (getlines specs) ->
  paperinit cfg w' = paperinit cfg w.
Proof.
  intros Ho Ho' Hm Hf; unfold paperinit; rewrite Ho, Ho', Hm.
  rewrite (paperinit_loop_filter _ (getlines specs')), Hf.
  symmetry; apply paperinit_loop_filter.
Qed.

Lemma paperinit_skips_blank_lines_witness :
  paperinit cfg (sys None ("# ISO" ++ nl ++ nl ++ "A4 595 842" ++ nl) None plenty)
  = paperinit cfg (sys None ("A4 595 842" ++ nl) None plenty).
Proof.
  apply (paperinit_skips_blank_lines cfg
           (sys None ("A4 595 842" ++ nl) None plenty)
           (sys None ("# ISO" ++ nl ++ nl ++ "A4 595 842" ++ nl) None plenty)
           ("A4 595 842" ++ nl)
           ("# ISO" ++ nl ++ nl ++ "A4 595 842" ++ nl));
    reflexivity.
Defined.

(** X12.  Once [paperinit] has failed, nothing that follows in the file
    is read: a file that goes on after the lines of a file on which
    [paperinit] does not return 0 gives the same value and the same
    table. *)
Theorem paperinit_stops_at_failure cfg w w' specs specs' rest :
  fopen w (PAPERSPECS cfg) = Some specs ->
  fopen w' (PAPERSPECS cfg) = Some specs' ->
  mem w' = mem w ->
  getlines specs' = (getlines specs ++ rest)%list ->
  fst (paperinit cfg w) <> Returned 0 ->
  paperinit cfg w' = paperinit cfg w.
Proof.
  intros Ho Ho' Hm Hl; unfold paperinit; rewrite Ho, Ho', Hm, Hl.
  apply paperinit_loop_stopped.
Qed.

Lemma paperinit_stops_at_failure_witness :
  paperinit cfg (sys None ("B5" ++ nl ++ "A4 595 842" ++ nl) None plenty)
  = paperinit cfg (sys None ("B5" ++ nl) None plenty).
Proof.
  apply (paperinit_stops_at_failure cfg
           (sys None ("B5" ++ nl) None plenty)
           (sys None ("B5" ++ nl ++ "A4 595 842" ++ nl) None plenty)
           ("B5" ++ nl) ("B5" ++ nl ++ "A4 595 842" ++ nl)
           ["A4 595 842" ++ nl]); try reflexivity.
  vm_compute; discriminate.
Defined.

Lemma paperinfo_initial c paper :
  paperinfo (hash_initialize paper_ptr c) paper = None.
Proof.
  destruct (paperinfo _ paper) as [d|] eqn:E; [|reflexivity].
  apply hash_lookup_sound in E as [Hd _].
  rewrite hash_initialize_entries in Hd; destruct Hd.
Qed.

(** X13.  A specification file with no line with tokens (empty, or
    blank lines and comments only) is read with success and gives the
    empty table: [paperinit] returns 0, [paperfirst] returns [NULL] and
    [paperinfo] returns [NULL] for every name. *)
Theorem paperinit_blank_file cfg w specs :
  fopen w (PAPERSPECS cfg) = Some specs ->
  Forall (fun l => has_token l = false) (getlines specs) ->
  fst (paperinit cfg w) = Returned 0 /\
  entries (snd (paperinit cfg w)) = []%list /\
  paperfirst (snd (paperinit cfg w)) = None /\
  forall paper, paperinfo (snd (paperinit cfg w)) paper = None.
Proof.
  intros Ho Hb; unfold paperinit; rewrite Ho.
  rewrite (paperinit_loop_blank _ _ _ _ Hb); simpl.
  split; [reflexivity|split; [apply hash_initialize_entries|split]].
  - unfold paperfirst; rewrite hash_get_first_entries.
    now rewrite hash_initialize_entries.
  - apply paperinfo_initial.
Qed.

Lemma paperinit_blank_file_witness :
  let w := sys None ("# no sizes" ++ nl ++ "   " ++ nl) None plenty in
  fst (paperinit cfg w) = Returned 0 /\
  entries (snd (paperinit cfg w)) = []%list /\
  paperfirst (snd (paperinit cfg w)) = None /\
  forall paper, paperinfo (snd (paperinit cfg w)) paper = None.
Proof.
  intros w.
  apply (paperinit_blank_file cfg w ("# no sizes" ++ nl ++ "   " ++ nl)).
  - reflexivity.
  - repeat constructor.
Defined.

Lemma line_paper_token l p : line_paper l = Some p -> token (name p) = true.
Proof.
  unfold line_paper, line_tokens.
  destruct (gettok (cstr l)) as [t1 s1] eqn:E1.
  destruct (gettok s1) as [t2 s2]; destruct (gettok s2) as [t3 s3];
    destruct (gettok s3) as [t4 s4].
  destruct t1 as [n|]; [|discriminate].
  destruct t2, t3; try discriminate; intros [= <-]; simpl.
  destruct (gettok_some _ _ _ (cstr_idem l) E1) as (b & _ & _ & Ht & _).
  exact Ht.
Qed.

Lemma line_papers_In ps p :
  In p (line_papers ps) ->
  exists l, In l ps /\ has_token l = true /\ line_paper l = Some p.
Proof.
  induction ps as [|l ps IH]; simpl; [contradiction|].
  destruct (has_token l) eqn:E.
  - destruct (line_paper l) as [q|] eqn:Eq.
    + intros [<-|H]; [exists l; auto|].
      destruct (IH H) as (l' & ? & ? & ?); exists l'; auto.
    + intros H; destruct (IH H) as (l' & ? & ? & ?); exists l'; auto.
  - intros H; destruct (IH H) as (l' & ? & ? & ?); exists l'; auto.
Qed.

(** X14.  Whatever [paperinit] returns, the table holds nothing but
    records made from lines of the file: each record of the table is the
    record of a line with tokens that has its three tokens, its name is
    the first token of that line (not empty, without white space), and
    there are no more records than such lines. *)
Theorem paperinit_records_from_lines cfg w specs :
  fopen w (PAPERSPECS cfg) = Some specs ->
  (forall d, In d (entries (snd (paperinit cfg w))) ->
     token (papername d) = true /\
     exists l, In l (getlines specs) /\ has_token l = true /\
               line_paper l = Some (pointee d)) /\
  (n_entries (snd (paperinit cfg w)) <=
   List.length (line_papers (getlines specs)))%nat.
Proof.
  intros Ho; unfold paperinit; rewrite Ho.
  destruct (paperinit_loop _ _ _ _) as [out t'] eqn:E.
  destruct (paperinit_loop_entries _ _ _ _ _ _ (table_ok_initial 256 1)
              (le_n 1) E) as [Hin Hlen].
  rewrite hash_initialize_entries in Hin, Hlen; simpl in *.
  split; [|exact Hlen].
  intros d Hd; destruct (Hin d Hd) as [[]|Hp].
  destruct (line_papers_In _ _ Hp) as (l & Hl & Ht & Hlp).
  split; [exact (line_paper_token _ _ Hlp)|exists l; auto].
Qed.

Lemma paperinit_records_from_lines_witness :
  let specs := "A4 595 842" ++ nl ++ "B5" ++ nl in
  let w := sys None specs None plenty in
  (forall d, In d (entries (snd (paperinit cfg w))) ->
     token (papername d) = true /\
     exists l, In l (getlines specs) /\ has_token l = true /\
               line_paper l = Some (pointee d)) /\
  (n_entries (snd (paperinit cfg w)) <=
   List.length (line_papers (getlines specs)))%nat.
Proof.
  intros specs w; apply (paperinit_records_from_lines cfg w specs); reflexivity.
Defined.

(** X15.  When [paperinit] returns 0 on a file in which no two lines
    have names equal up to case, the table holds exactly the records of
    the lines, one for each line, and [paperinfo] called with the name of
    a record, as it is written in the file, returns that very record. *)
Theorem paperinit_distinct_names cfg w specs :
  fopen w (PAPERSPECS cfg) = Some specs ->
  fst (paperinit cfg w) = Returned 0 ->
  NoDup (map lname (line_papers (getlines specs))) ->
  Permutation (map pointee (entries (snd (paperinit cfg w))))
              (line_papers (getlines specs)) /\
  forall d, In d (entries (snd (paperinit cfg w))) ->
            paperinfo (snd (paperinit cfg w)) (papername d) = Some d.
Proof.
  intros Ho; unfold paperinit; rewrite Ho.
  destruct (paperinit_loop _ _ _ _) as [out t'] eqn:E; simpl.
  intros -> Hnd.
  pose proof (table_ok_initial 256 1) as Hok0.
  assert (Hp : Permutation (map pointee (entries t')) (line_papers (getlines specs))).
  { pose proof (paperinit_loop_distinct (mem w) (getlines specs) 1 _ t'
                  Hok0 (le_n 1)) as H.
    rewrite hash_initialize_entries in H; simpl in H; now apply H. }
  split; [exact Hp|].
  destruct (paperinit_loop_ok _ _ _ _ _ _ Hok0 (le_n 1) E) as [[k Hok] _].
  intros d Hd; apply (paperinfo_exact k); auto.
  rewrite <- (map_map pointee lname).
  eapply Permutation_NoDup; [|exact Hnd].
  apply Permutation_map; symmetry; exact Hp.
Qed.

Lemma paperinit_distinct_names_witness :
  let specs := "A4 595 842" ++ nl ++ "Letter 8.5 11 in" ++ nl in
  let w := sys None specs None plenty in
  Permutation (map pointee (entries (snd (paperinit cfg w))))
              (line_papers (getlines specs)) /\
  forall d, In d (entries (snd (paperinit cfg w))) ->
            paperinfo (snd (paperinit cfg w)) (papername d) = Some d.
Proof.
  intros specs w; apply (paperinit_distinct_names cfg w specs).
  - reflexivity.
  - reflexivity.
  - vm_compute.
    repeat (constructor; [simpl; intuition discriminate|]); constructor.
Defined.

(** *** More facts about the queries *)

Module QueryFacts.
Import CLib Flt Strtod Hash Paper Shape HashFacts PaperFacts TokenFacts.
Local Open Scope nat_scope.
Local Open Scope list_scope.

Lemma walk_from_split t fuel : forall bs1 c1 d c2 bs2,
  bucket t = bs1 ++ (c1 ++ d :: c2) :: bs2 ->
  in_place paperhash (bucket t) ->
  NoDup (map addr (entries t)) ->
  List.length (d :: c2 ++ List.concat bs2) <= fuel ->
  walk_from fuel t (Some d) = Some (d :: c2 ++ List.concat bs2).
Proof.
  induction fuel as [|fuel IH]; intros bs1 c1 d c2 bs2 Hb Hp Hnd Hlen;
    [simpl in Hlen; lia|].
  cbn [walk_from]; unfold papernext.
  rewrite (hash_get_next_split _ _ _ _ ptr_eq_addr _ _ _ _ _ _ Hb Hp Hnd).
  destruct c2 as [|d' c2].
  - cbn [app]; destruct (List.concat bs2) as [|d' l] eqn:E.
    + simpl; destruct fuel; reflexivity.
    + destruct (concat_cons_split _ _ _ _ E) as (es & c & bs' & -> & He & ->).
      cbn [hd_error].
      rewrite (IH (bs1 ++ (c1 ++ [d]) :: es) [] d' c bs'); auto.
      * rewrite Hb, <- app_assoc; reflexivity.
      * simpl in Hlen |- *; lia.
  - cbn [app hd_error].
    rewrite (IH bs1 (c1 ++ [d]) d' c2 bs2); auto.
    + rewrite Hb, <- app_assoc; reflexivity.
    + simpl in Hlen |- *; lia.
Qed.

Lemma walk_entries k t : table_ok k t -> walk t = Some (entries t).
Proof.
  intros ([_ Hp] & Hnd & _); unfold walk, paperfirst.
  rewrite hash_get_first_entries.
  change (n_entries t) with (List.length (entries t)).
  destruct (entries t) as [|d l] eqn:E; [reflexivity|].
  unfold entries in E.
  destruct (concat_cons_split _ _ _ _ E) as (es & c & bs' & Hb & He & ->).
  cbn [hd_error].
  apply (walk_from_split t _ es [] d c bs'); auto.
  unfold entries; rewrite E; exact Hnd.
Qed.

Lemma find_all_false {X} (f : X -> bool) l :
  (forall x, In x l -> f x = false) -> find f l = None.
Proof.
  induction l as [|x l IH]; intros H; simpl; [reflexivity|].
  rewrite (H x) by now left.
  apply IH; intros; apply H; now right.
Qed.

Lemma eqb_nan_r x : eqb x S754_nan = false.
Proof. destruct x; reflexivity. Qed.

Lemma eqb_nan_l x : eqb S754_nan x = false.
Proof. destruct x; reflexivity. Qed.

Lemma gettokline_none fp :
  Forall (fun l => has_token l = false) fp -> gettokline fp = None.
Proof. induction 1 as [|l fp Hl _ IH]; simpl; [reflexivity|now rewrite Hl]. Qed.

Lemma gettokline_skip skipped l rest :
  Forall (fun x => has_token x = false) skipped -> has_token l = true ->
  gettokline (skipped ++ l :: rest) = Some (l, rest).
Proof.
  induction 1 as [|x sk Hx _ IH]; intros Hl; simpl.
  - now rewrite Hl.
  - rewrite Hx; now apply IH.
Qed.

(** A line with a token gives one to [gettok]. *)
Lemma has_token_gettok l :
  has_token l = true ->
  exists tok saveptr, gettok (cstr l) = (Some tok, saveptr) /\ token tok = true.
Proof.
  unfold has_token, gettok.
  destruct (skip_blanks_split (cstr l)) as (b & _ & _ & Hst).
  destruct (span_token_split _ (skip_blanks_cstr _ (cstr_idem l)))
    as (H1 & H2 & _).
  destruct (skip_blanks (cstr l)) as [|c r] eqn:E; [discriminate|].
  intros _; simpl in Hst.
  cbn [span_token] in *; rewrite Hst in *.
  destruct (span_token r) as [t s]; simpl in *.
  exists (String c t), s; split; [reflexivity|exact H2].
Qed.

End QueryFacts.

(** *** The queries *)

Import QueryFacts.

(** X16.  On a table that [paperinit] leaves, [paperinfo] returns [NULL]
    or a record of the table whose name is the name asked for up to
    case: a name that is the name of no record, up to case, gives
    [NULL]. *)
Theorem paperinfo_matches_name cfg w paper :
  paperinfo (snd (paperinit cfg w)) paper = None \/
  exists d, paperinfo (snd (paperinit cfg w)) paper = Some d /\
            In d (entries (snd (paperinit cfg w))) /\
            strcasecmp paper (papername d) = 0.
Proof.
  destruct (paperinit_ok cfg w) as [k Hok].
  destruct (paperinfo _ paper) as [d|] eqn:E; [right|now left].
  exists d; split; [reflexivity|exact (paperinfo_sound _ _ _ _ Hok E)].
Qed.



(** X18.  On a table that [paperinit] leaves, the loop from [paperfirst]
    along [papernext] ends after as many steps as the table has entries,
    and goes through every record of the table exactly once. *)
Theorem traversal_visits_each_record_once cfg w :
  walk (snd (paperinit cfg w)) = Some (entries (snd (paperinit cfg w))) /\
  NoDup (map addr (entries (snd (paperinit cfg w)))) /\
  List.length (entries (snd (paperinit cfg w))) = n_entries (snd (paperinit cfg w)).
Proof.
  destruct (paperinit_ok cfg w) as [k Hok].
  split; [exact (walk_entries _ _ Hok)|split; [apply Hok|reflexivity]].
Qed.

(** X19.  On a table that [paperinit] leaves, [paperwithsize] ends; it
    returns the first record of the traversal whose width and height are
    equal ([==]) to the ones asked for, and [NULL] exactly when no record
    of the table has them. *)
Theorem paperwithsize_first_match cfg w pswidth psheight :
  let same_size pp := eqb (paperpswidth pp) pswidth
                      && eqb (paperpsheight pp) psheight in
  paperwithsize (snd (paperinit cfg w)) pswidth psheight =
    Some (find same_size (entries (snd (paperinit cfg w)))) /\
  match find same_size (entries (snd (paperinit cfg w))) with
  | Some d => In d (entries (snd (paperinit cfg w))) /\
              eqb (paperpswidth d) pswidth = true /\
              eqb (paperpsheight d) psheight = true
  | None => forall d, In d (entries (snd (paperinit cfg w))) ->
                      same_size d = false
  end.
Proof.
  intros same_size; destruct (paperinit_ok cfg w) as [k Hok].
  split; [exact (scan_find _ _ _ Hok)|].
  destruct (find same_size _) as [d|] eqn:E.
  - apply find_some in E as [Hd E]; apply andb_prop in E; tauto.
  - intros d Hd; exact (find_none _ _ E d Hd).
Qed.

(** X20.  [paperwithsize] called with a NaN for the width or for the
    height returns [NULL], whatever the table of [paperinit] holds. *)
Theorem paperwithsize_nan cfg w x :
  paperwithsize (snd (paperinit cfg w)) S754_nan x = Some None /\
  paperwithsize (snd (paperinit cfg w)) x S754_nan = Some None.
Proof.
  destruct (paperinit_ok cfg w) as [k Hok]; unfold paperwithsize.
  rewrite !(scan_find _ _ _ Hok); split; f_equal; apply find_all_false;
    intros d _.
  - now rewrite eqb_nan_r.
  - now rewrite eqb_nan_r, andb_false_r.
Qed.

(** *** The resolvers *)


(** X22.  When the paper-size variable is not set and no name can be
    read from the configuration file ([stat] fails, or the file does not
    open, or it has no line with a token), the name of [systempapername]
    is [PAPERSIZE], looked up in the table as any other. *)
Theorem systempapername_falls_back cfg w papers :
  getenv w (PAPERSIZEVAR cfg) = None ->
  stat w (systempapersizefile cfg w) = false \/
  fopen w (systempapersizefile cfg w) = None \/
  (exists conf, fopen w (systempapersizefile cfg w) = Some conf /\
                Forall (fun l => has_token l = false) (getlines conf)) ->
  rawpapername cfg w = PAPERSIZE cfg /\
  systempapername cfg w papers =
    match paperinfo papers (PAPERSIZE cfg) with
    | Some pp => papername pp
    | None => PAPERSIZE cfg
    end.
Proof.
  intros Henv Hfile.
  assert (Hconf : paperconf_name cfg w = None).
  { unfold paperconf_name.
    destruct Hfile as [H|[H|(conf & H & Hb)]]; rewrite H.
    - reflexivity.
    - now destruct (stat w _).
    - rewrite (gettokline_none _ Hb); now destruct (stat w _). }
  assert (Hraw : rawpapername cfg w = PAPERSIZE cfg)
    by (unfold rawpapername; now rewrite Henv, Hconf).
  split; [exact Hraw|unfold systempapername; now rewrite Hraw].
Qed.

Lemma systempapername_falls_back_witness :
  let w := sys None ("letter 612 792" ++ nl) (Some ("# none" ++ nl)) plenty in
  rawpapername cfg w = PAPERSIZE cfg /\
  systempapername cfg w (snd (paperinit cfg w)) =
    match paperinfo (snd (paperinit cfg w)) (PAPERSIZE cfg) with
    | Some pp => papername pp
    | None => PAPERSIZE cfg
    end.
Proof.
  intros w; apply (systempapername_falls_back cfg w (snd (paperinit cfg w))).
  - reflexivity.
  - right; right; exists ("# none" ++ nl); split;
      [reflexivity|repeat constructor].
Defined.

(** X23.  When the paper-size variable is not set and the configuration
    file can be read, the name of [systempapername] is the first token of
    the first line of the file that has one: the blank lines and comments
    before that line, the rest of the line and the lines after it do not
    count. *)
Theorem systempapername_reads_first_token cfg w conf skipped l rest :
  getenv w (PAPERSIZEVAR cfg) = None ->
  stat w (systempapersizefile cfg w) = true ->
  fopen w (systempapersizefile cfg w) = Some conf ->
  getlines conf = (skipped ++ l :: rest)%list ->
  Forall (fun x => has_token x = false) skipped ->
  has_token l = true ->
  exists tok, fst (gettok (cstr l)) = Some tok /\ token tok = true /\
              rawpapername cfg w = tok.
Proof.
  intros Henv Hstat Hopen Hlines Hsk Hl.
  destruct (has_token_gettok _ Hl) as (tok & sp & Hg & Ht).
  exists tok; rewrite Hg; repeat split; auto.
  unfold rawpapername, paperconf_name.
  now rewrite Henv, Hstat, Hopen, Hlines, (gettokline_skip _ _ _ Hsk Hl), Hg.
Qed.

Lemma systempapername_reads_first_token_witness :
  let conf := "# paper" ++ nl ++ "  a4 please" ++ nl ++ "letter" ++ nl in
  let w := sys None ("A4 595 842" ++ nl) (Some conf) plenty in
  exists tok, fst (gettok (cstr ("  a4 please" ++ nl))) = Some tok /\
              token tok = true /\ rawpapername cfg w = tok.
Proof.
  intros conf w.
  apply (systempapername_reads_first_token cfg w conf
           ["# paper" ++ nl] ("  a4 please" ++ nl) ["letter" ++ nl]);
    try reflexivity.
  repeat constructor.
Defined.

(** X24.  On a table that [paperinit] leaves, what [systempapername]
    returns equals, up to case, the name it has read, and has as a C
    string the same length: the [strcpy] of the stored name fills the
    buffer of [paperstr] and no more. *)
Theorem systempapername_same_length cfg w w0 :
  strcasecmp (rawpapername cfg w)
             (systempapername cfg w (snd (paperinit cfg w0))) = 0 /\
  String.length (cstr (systempapername cfg w (snd (paperinit cfg w0)))) =
  String.length (cstr (rawpapername cfg w)).
Proof.
  destruct (paperinit_ok cfg w0) as [k Hok]; unfold systempapername.
  destruct (paperinfo _ (rawpapername cfg w)) as [d|] eqn:E.
  - destruct (paperinfo_sound _ _ _ _ Hok E) as [Hd Hc]; split; [exact Hc|].
    destruct Hok as (_ & _ & Hf); rewrite Forall_forall in Hf.
    destruct (Hf d Hd) as (_ & _ & Hcs); unfold papername in *.
    rewrite Hcs; symmetry; now apply strcasecmp_length.
  - split; [apply strcasecmp_refl|reflexivity].
Qed.

(** *** The callbacks of the table *)

(** X25.  On records whose names are C strings [papereq] is an
    equivalence: every record equals itself, and the relation is
    symmetric and transitive. *)
Theorem papereq_equivalence v w x :
  cstr (papername v) = papername v ->
  cstr (papername w) = papername w ->
  cstr (papername x) = papername x ->
  papereq v v = true /\
  papereq v w = papereq w v /\
  (papereq v w = true -> papereq w x = true -> papereq v x = true).
Proof.
  unfold papereq, papername; intros Hv Hw Hx; split; [|split].
  - now rewrite strcasecmp_refl.
  - destruct (Z.eqb_spec (strcasecmp (name (pointee v)) (name (pointee w))) 0)
      as [E|E];
      destruct (Z.eqb_spec (strcasecmp (name (pointee w)) (name (pointee v))) 0)
      as [E'|E']; auto; exfalso.
    + apply E'; now apply strcasecmp_sym.
    + apply E; now apply strcasecmp_sym.
  - intros H1 H2; apply Z.eqb_eq in H1, H2; apply Z.eqb_eq.
    exact (strcasecmp_trans _ _ _ Hv Hw Hx H1 H2).
Qed.

Lemma papereq_equivalence_witness :
  let rec n := {| addr := 0;
                  pointee := {| name := n; pswidth := zero; psheight := zero |} |} in
  papereq (rec "a4") (rec "a4") = true /\
  papereq (rec "a4") (rec "A4") = papereq (rec "A4") (rec "a4") /\
  (papereq (rec "a4") (rec "A4") = true -> papereq (rec "A4") (rec "a4") = true ->
   papereq (rec "a4") (rec "a4") = true).
Proof.
  intros rec.
  apply (papereq_equivalence (rec "a4") (rec "A4") (rec "a4")); reflexivity.
Defined.

(** X26.  [paperhash] gives a bucket of the array: for every record and
    every number of buckets that is not 0 its value is below that number,
    so that the table never finds the hasher out of range. *)
Theorem paperhash_in_range v n : (0 < n)%nat -> (paperhash v n < n)%nat.
Proof. apply paperhash_lt. Qed.

Lemma paperhash_in_range_witness :
  (paperhash {| addr := 1;
                pointee := {| name := "A4"; pswidth := zero; psheight := zero |} |}
             331 < 331)%nat.
Proof. apply paperhash_in_range; lia. Defined.

(** *** Failures of [paperinit] *)




(** X28.  When [malloc] gives no record for a line that has its three
    tokens, the lines before it having been read with success,
    [paperinit] does not return: [hash_insert] is called with [NULL] and
    the process is aborted, the table being the one of the lines before. *)
Theorem paperinit_aborts_on_malloc_failure cfg w specs ps l rest p t1 :
  fopen w (PAPERSPECS cfg) = Some specs ->
  getlines specs = (ps ++ l :: rest)%list ->
  paperinit_loop (mem w) ps 1 (hash_initialize paper_ptr 256) = (Returned 0, t1) ->
  has_token l = true ->
  line_paper l = Some p ->
  malloc_ok (mem w) (1 + List.length (filter has_token ps)) = false ->
  paperinit cfg w = (Aborted, t1).
Proof.
  intros Ho Hl Hps Ht Hp Hm; unfold paperinit; rewrite Ho, Hl.
  rewrite (paperinit_loop_app _ _ _ _ _ _ Hps); cbn [paperinit_loop].
  now rewrite Ht, (paperinit_line_no_malloc _ _ _ _ _ Hp Hm).
Qed.

Lemma paperinit_aborts_on_malloc_failure_witness :
  let specs := "A4 595 842" ++ nl ++ "B5 499 709" ++ nl in
  let m := {| malloc_ok := fun k => Nat.eqb k 1; hash_ok := fun _ => true |} in
  paperinit cfg (sys None specs None m) = (Aborted, catalog ("A4 595 842" ++ nl)).
Proof.
  intros specs m.
  apply (paperinit_aborts_on_malloc_failure cfg (sys None specs None m) specs
           ["A4 595 842" ++ nl] ("B5 499 709" ++ nl) []
           {| name := "B5"; pswidth := dconst "499"; psheight := dconst "709" |});
    reflexivity.
Defined.


